(** * argus-docs: the documentation sync and validation scripts

    A shallow embedding of the three Node scripts of the repository:

    - [scripts/sync-docs.js]      (module [Sync]),
    - [scripts/validate-docs.js]  (module [Loose], the loose Validator),
    - the stricter copy of the validator, with its root filter and its
      delimiter pattern (module [Strict]).

    JavaScript strings are modelled as [string]: a sequence of UTF-16
    code units.  The line terminators are LF, CR, LS (U+2028) and PS
    (U+2029).  The content of a file is the string that reading it as
    ['utf8'] yields.

    The validators see the file system as a tree of directories and
    readable regular files that does not change during a run.  The Sync
    Engine runs on a file system of any kind, given by the three calls it
    makes ([Sync.FileSystem]); its reads and writes can throw.  A disk of
    directories and regular files ([Disk]) serves for the examples. *)

From stdpp Require Import gmap list.
From Stdlib Require Import NArith.
From Stdlib.Strings Require Import Byte.

#[local] Open Scope stdpp_scope.

(** ** Strings *)

(** A code unit of UTF-16: a number below 65536.  No definition below
    looks at the bound. *)
Abbreviation codeunit := N.

(** A JavaScript string: a sequence of code units. *)
Inductive string : Type :=
| EmptyString
| String (c : codeunit) (s : string).

(** String literals are written in UTF-8 and stand for their code
    units. *)
Module Utf.
#[local] Open Scope N_scope.

Definition continuation (b : N) : option N :=
  if (128 <=? b) && (b <? 192) then Some (b - 128) else None.

(** The one or two code units of a code point. *)
Definition units (cp : N) (s : string) : string :=
  if cp <? 65536 then String cp s
  else String (55296 + (cp - 65536) / 1024)
              (String (56320 + (cp - 65536) mod 1024) s).

Fixpoint decode (fuel : nat) (bs : list N) : option string :=
  match fuel, bs with
  | _, [] => Some EmptyString
  | O, _ => None
  | S fuel, b :: bs1 =>
      if b <? 128 then String b <$> decode fuel bs1
      else if b <? 192 then None
      else if b <? 224 then
        match bs1 with
        | b1 :: bs2 =>
            c1 ← continuation b1;
            units ((b - 192) * 64 + c1) <$> decode fuel bs2
        | _ => None
        end
      else if b <? 240 then
        match bs1 with
        | b1 :: b2 :: bs3 =>
            c1 ← continuation b1; c2 ← continuation b2;
            units ((b - 224) * 4096 + c1 * 64 + c2) <$> decode fuel bs3
        | _ => None
        end
      else if b <? 248 then
        match bs1 with
        | b1 :: b2 :: b3 :: bs4 =>
            c1 ← continuation b1; c2 ← continuation b2; c3 ← continuation b3;
            units ((b - 240) * 262144 + c1 * 4096 + c2 * 64 + c3)
              <$> decode fuel bs4
        | _ => None
        end
      else None
  end.

Definition parse (bs : list byte) : option string :=
  decode (length bs) (Byte.to_N <$> bs).

Definition bytes (ns : list N) : option (list byte) := mapM Byte.of_N ns.

Fixpoint encode (s : string) : option (list N) :=
  match s with
  | EmptyString => Some []
  | String c s' =>
      if c <? 128 then (c ::.) <$> encode s'
      else if c <? 2048 then
        ([192 + c / 64; 128 + c mod 64] ++.) <$> encode s'
      else if (c <? 55296) || ((57344 <=? c) && (c <? 65536)) then
        ([224 + c / 4096; 128 + (c / 64) mod 64; 128 + c mod 64] ++.)
          <$> encode s'
      else
        match s' with
        | String d s'' =>
            if (55296 <=? c) && (c <? 56320) && (56320 <=? d) && (d <? 57344)
            then let cp := 65536 + (c - 55296) * 1024 + (d - 56320) in
                 ([240 + cp / 262144; 128 + (cp / 4096) mod 64;
                   128 + (cp / 64) mod 64; 128 + cp mod 64] ++.)
                   <$> encode s''
            else None
        | EmptyString => None
        end
  end.

Definition print (s : string) : option (list byte) := encode s ≫= bytes.

Definition parse_unit (bs : list byte) : option codeunit :=
  match parse bs with
  | Some (String c EmptyString) => Some c
  | _ => None
  end.

Definition print_unit (c : codeunit) : option (list byte) :=
  print (String c EmptyString).

End Utf.

Declare Scope js_scope.
Delimit Scope js_scope with js.
Bind Scope js_scope with string.
String Notation string Utf.parse Utf.print : js_scope.
#[local] Open Scope js_scope.

Declare Scope unit_scope.
Delimit Scope unit_scope with char.
String Notation N Utf.parse_unit Utf.print_unit : unit_scope.

Module String.

Fixpoint append (s1 s2 : string) : string :=
  match s1 with
  | "" => s2
  | String c s1' => String c (append s1' s2)
  end.

Fixpoint length (s : string) : nat :=
  match s with
  | "" => 0
  | String _ s' => S (length s')
  end.

(** [s1] is a prefix of [s2]. *)
Fixpoint prefix (s1 s2 : string) : bool :=
  match s1 with
  | "" => true
  | String a s1' =>
      match s2 with
      | "" => false
      | String b s2' => if N.eqb a b then prefix s1' s2' else false
      end
  end.

Fixpoint eqb (s1 s2 : string) : bool :=
  match s1, s2 with
  | "", "" => true
  | String c1 s1', String c2 s2' => N.eqb c1 c2 && eqb s1' s2'
  | _, _ => false
  end.

Fixpoint to_list (s : string) : list codeunit :=
  match s with
  | "" => []
  | String c s' => c :: to_list s'
  end.

Fixpoint of_list (l : list codeunit) : string :=
  match l with
  | [] => ""
  | c :: l' => String c (of_list l')
  end.

End String.

Infix "+:+" := String.append (at level 60, right associativity) : stdpp_scope.
Arguments String.append : simpl never.

#[global] Instance string_eq_dec : EqDecision string.
Proof. solve_decision. Defined.

#[global] Program Instance string_countable : Countable string :=
  inj_countable' String.to_list String.of_list _.
Next Obligation.
  intros s. induction s as [|c s IH]; [done|]. cbn. by rewrite IH.
Qed.

#[global] Instance string_inhabited : Inhabited string := populate "".

(** ** Exceptions *)

(** A JavaScript computation either yields a value or throws. *)
Inductive result (A : Type) : Type :=
| Ok (a : A)
| Throw (e : string).
Arguments Ok {A} a.
Arguments Throw {A} e.

#[global] Instance result_ret : MRet result := λ A a, Ok a.
#[global] Instance result_bind : MBind result := λ A B k r,
  match r with
  | Ok a => k a
  | Throw e => Throw e
  end.
#[global] Instance result_fmap : FMap result := λ A B f r,
  match r with
  | Ok a => Ok (f a)
  | Throw e => Throw e
  end.

(** ** JavaScript string primitives *)
Module Js.

(** [s.startsWith(p)] *)
Definition startsWith (s p : string) : bool := String.prefix p s.

(** [s.endsWith(p)]: some suffix of [s] is [p]. *)
Fixpoint endsWith (s p : string) : bool :=
  String.eqb s p ||
  match s with
  | "" => false
  | String _ s' => endsWith s' p
  end.

(** [s.includes(p)]: [p] starts at some position of [s]. *)
Fixpoint includes (s p : string) : bool :=
  String.prefix p s ||
  match s with
  | "" => false
  | String _ s' => includes s' p
  end.

(** [s.split(sep)] for a non-empty separator: scan left to right; at an
    occurrence of [sep] close the current piece and jump over the
    separator ([skip] counts the code units still to jump over). *)
Fixpoint split_from (sep : string) (skip : nat) (cur : string) (s : string)
  : list string :=
  match s with
  | "" => [cur]
  | String c s' =>
      match skip with
      | S k => split_from sep k cur s'
      | O =>
          if String.prefix sep s
          then cur :: split_from sep (String.length sep - 1) "" s'
          else split_from sep 0 (cur +:+ String c "") s'
      end
  end.

Definition split (s sep : string) : list string := split_from sep 0 "" s.

(** [arr.pop()] on the array returned by [split], which is never empty. *)
Definition pop (arr : list string) : string := default "" (last arr).

(** The line terminators of the language: LF, CR, LS and PS. *)
Definition isLineTerminator (c : codeunit) : bool :=
  (c =? 10)%N || (c =? 13)%N || (c =? 8232)%N || (c =? 8233)%N.

(** [path.join(dir, item)] as the traversals call it: [dir] is ['.'] or a
    path that an earlier call returned, and [item] the name of a
    directory entry, not empty, without a slash and neither [.] nor [..].
    There [path.join] has nothing to normalise.  ([Path.join] below is the
    function on all arguments.) *)
Definition join (a b : string) : string :=
  if String.eqb a "." then b
  else if endsWith a "/" then a +:+ b
  else a +:+ "/" +:+ b.

(** [path.sep] on POSIX. *)
Definition sep : string := "/".

(** Template literal [`${n}`] for a non-negative integer. *)
Fixpoint digits (d : Decimal.uint) : string :=
  match d with
  | Decimal.Nil => ""
  | Decimal.D0 d => String "0"%char (digits d)
  | Decimal.D1 d => String "1"%char (digits d)
  | Decimal.D2 d => String "2"%char (digits d)
  | Decimal.D3 d => String "3"%char (digits d)
  | Decimal.D4 d => String "4"%char (digits d)
  | Decimal.D5 d => String "5"%char (digits d)
  | Decimal.D6 d => String "6"%char (digits d)
  | Decimal.D7 d => String "7"%char (digits d)
  | Decimal.D8 d => String "8"%char (digits d)
  | Decimal.D9 d => String "9"%char (digits d)
  end.

Definition numberToString (n : nat) : string := digits (Nat.to_uint n).

End Js.

(** ** Regular expressions

    The fragment of the regular expression language that the patterns of
    the scripts are written in: pattern characters, a greedy or lazy star
    on [.] or on [[\s\S]], [^], [$] and one capturing group. *)
Module Regex.

Inductive charset : Type :=
| AnyChar             (* [\s\S] *)
| NotLineTerminator.  (* .      *)

Inductive term : Type :=
| Lit (c : codeunit)                       (* a pattern character or escape *)
| Star (cs : charset) (greedy : bool)   (* cs* and cs*? *)
| Bol                                   (* ^ *)
| Eol                                   (* $ *)
| Open                                  (* ( *)
| Close.                                (* ) *)

Record regexp : Type := RegExp {
  source : list term;
  ignoreCase : bool;
  multiline : bool
}.

(** The pattern characters of a string without metacharacters. *)
Fixpoint lit (s : string) : list term :=
  match s with
  | "" => []
  | String c s' => Lit c :: lit s'
  end.

Definition in_set (cs : charset) (a : codeunit) : bool :=
  match cs with
  | AnyChar => true
  | NotLineTerminator => negb (Js.isLineTerminator a)
  end.

(** Case folding of the [i] flag, applied to the pattern character and to
    the input character before they are compared.  Without the [u] flag
    the language folds a code unit to its upper case when that is one
    code unit, and never folds a code unit from 128 on to one below 128:
    below 128 this takes [a-z] to [A-Z] and leaves the rest, and a code
    unit from 128 on stays apart from every code unit below 128.  The
    pattern characters of the scripts are all below 128, so that a code
    unit from 128 on can be left as it is. *)
Definition fold_unit (c : codeunit) : codeunit :=
  if ((97 <=? c) && (c <=? 122))%N then (c - 32)%N else c.

Definition canonicalize (re : regexp) (c : codeunit) : codeunit :=
  if ignoreCase re then fold_unit c else c.

Definition char_eq (re : regexp) (c a : codeunit) : bool :=
  N.eqb (canonicalize re c) (canonicalize re a).

(** The open group collects the code units consumed since [Open]. *)
Definition push (grp : option string) (a : codeunit) : option string :=
  (λ g, g +:+ String a "") <$> grp.

Definition at_line_start (re : regexp) (prev : option codeunit) : bool :=
  match prev with
  | None => true
  | Some p => multiline re && Js.isLineTerminator p
  end.

Definition at_line_end (re : regexp) (s : string) : bool :=
  match s with
  | "" => true
  | String a _ => multiline re && Js.isLineTerminator a
  end.

(** Result of a match attempt: [None] is failure, [Some cap] success
    with capture [cap]. *)
Definition attempt : Type := option (option string).

(** Star on a character class with continuation [k]: the greedy star
    first consumes, the lazy star first tries [k]. *)
Fixpoint star (cs : charset) (greedy : bool)
    (k : option codeunit → option string → string → attempt)
    (prev : option codeunit) (grp : option string) (s : string) {struct s}
  : attempt :=
  let more :=
    match s with
    | String a s' =>
        if in_set cs a then star cs greedy k (Some a) (push grp a) s'
        else None
    | "" => None
    end in
  if greedy
  then match more with
       | Some r => Some r
       | None => k prev grp s
       end
  else match k prev grp s with
       | Some r => Some r
       | None => more
       end.

(** Backtracking matcher: [run re ts prev grp cap s] matches the terms
    [ts] at the head of [s]; [prev] is the code unit before the current
    position, [grp] the content of the group being captured, [cap] the
    last completed capture.  The result is the capture of the first
    successful alternative. *)
Fixpoint run (re : regexp) (ts : list term) (prev : option codeunit)
    (grp cap : option string) (s : string) {struct ts} : attempt :=
  match ts with
  | [] => Some cap
  | t :: ts' =>
      match t with
      | Lit c =>
          match s with
          | String a s' =>
              if char_eq re c a
              then run re ts' (Some a) (push grp a) cap s'
              else None
          | "" => None
          end
      | Star cs greedy =>
          star cs greedy (λ prev grp s, run re ts' prev grp cap s) prev grp s
      | Bol => if at_line_start re prev then run re ts' prev grp cap s else None
      | Eol => if at_line_end re s then run re ts' prev grp cap s else None
      | Open => run re ts' prev (Some "") cap s
      | Close => run re ts' prev None grp s
      end
  end.

(** Try every start position from the left. *)
Fixpoint search (re : regexp) (prev : option codeunit) (s : string)
  : attempt :=
  match run re (source re) prev None None s with
  | Some r => Some r
  | None =>
      match s with
      | "" => None
      | String a s' => search re (Some a) s'
      end
  end.

(** [re.exec(s)] / [s.match(re)] for a regular expression without the
    [g] and [y] flags: [None] is [null], [Some cap] a match whose group 1
    is [cap]. *)
Definition exec (re : regexp) (s : string) : attempt :=
  search re None s.

(** [re.test(s)] *)
Definition test (re : regexp) (s : string) : bool :=
  match exec re s with
  | Some _ => true
  | None => false
  end.

End Regex.

Import Regex.

(** The line feed, written [\n] in the scripts. *)
Definition LF : codeunit := 10%N.

(** The line separator U+2028. *)
Definition LS : codeunit := 8232%N.
Definition nl : string := String LF "".

(** ** The file system seen by the validators *)
Module Fs.

(** A tree of directories and regular files that can be read.  A
    directory lists its entries in the order [readdirSync] returns
    them. *)
#[local] Unset Elimination Schemes.
Inductive node : Type :=
| File (content : string)
| Dir (items : list (string * node)).
#[local] Set Elimination Schemes.

(** [statSync(path).isDirectory()] *)
Definition isDirectory (n : node) : bool :=
  match n with
  | Dir _ => true
  | File _ => false
  end.

(** [readFileSync(path, 'utf8')]: reading a directory throws. *)
Definition readFileSync (n : node) : result string :=
  match n with
  | File content => Ok content
  | Dir _ => Throw "EISDIR: illegal operation on a directory, read"
  end.

End Fs.

(** How a run of a script ends: [process.exit(code)] or the normal end
    of the script (code 0), or an exception nobody catches. *)
Inductive outcome : Type :=
| Exit (stdout : list string) (code : nat)
| Uncaught (stdout : list string) (e : string).

(** ** scripts/validate-docs.js: the loose Validator *)
Module Loose.

Definition JUNK_PATTERNS : list regexp := [
  RegExp (lit "SUMMARY" ++ [Lit "."%char] ++ lit "md" ++ [Eol]) true false;
  RegExp (lit "COMPLETE" ++ [Lit "."%char] ++ lit "md" ++ [Eol]) true false;
  RegExp (lit "FIXES" ++ [Lit "."%char] ++ lit "md" ++ [Eol]) true false;
  RegExp (lit "SESSION" ++ [Star NotLineTerminator true; Lit "."%char]
            ++ lit "md" ++ [Eol]) true false;
  RegExp (lit "PROMPT" ++ [Star NotLineTerminator true; Lit "."%char]
            ++ lit "md" ++ [Eol]) true false;
  RegExp (lit "STATUS" ++ [Lit "."%char] ++ lit "md" ++ [Eol]) true false;
  RegExp (lit "_AUDIT" ++ [Lit "."%char] ++ lit "md" ++ [Eol]) true false;
  RegExp (lit "VERIFICATION" ++ [Lit "."%char] ++ lit "md" ++ [Eol]) true false
].

Definition REQUIRED_FRONTMATTER : list string := ["title"].

(** An element of [files]: the path pushed by the traversal, together
    with the node the file system holds at that path, which is what a
    later [readFileSync(path)] reads. *)
Record file : Type := MkFile {
  path : string;
  target : Fs.node
}.

(** [findMarkdownFiles(dir, files)], where [d] is the directory at
    [dir].  A directory whose name starts with a dot fails the first
    test and falls through to the [.md] test. *)
Fixpoint findMarkdownFiles (dir : string) (d : Fs.node) (files : list file)
    {struct d} : list file :=
  match d with
  | Fs.File _ => files
  | Fs.Dir items =>
      (fix each (items : list (string * Fs.node)) (files : list file)
         : list file :=
         match items with
         | [] => files
         | (item, child) :: rest =>
             let path := Js.join dir item in
             if Fs.isDirectory child && negb (Js.startsWith item ".")
             then each rest (findMarkdownFiles path child files)
             else if Js.endsWith item ".md"
             then each rest (files ++ [MkFile path child])
             else each rest files
         end) items files
  end.

Definition junk_message (filename : string) : string :=
  "Junk doc detected: " +:+ filename.

Definition field_message (field : string) : string :=
  "Missing frontmatter: " +:+ field.

(** The loop over [REQUIRED_FRONTMATTER]. *)
Definition check_fields (frontmatter : string) (errors : list string)
  : list string :=
  foldl (λ errors field,
           if negb (Js.includes frontmatter (field +:+ ":"))
           then errors ++ [field_message field]
           else errors)
        errors REQUIRED_FRONTMATTER.

(** [validateFile(filepath)].  The link loop at the end of the source
    function has an empty body: it pushes nothing, and it cannot throw,
    because every element of [links] ends in a parenthesised part on one
    line, which the inner pattern matches. *)
Definition validateFile (f : file) : result (list string) :=
  let filename := Js.pop (Js.split (path f) "/") in
  let errors := [] in
  let errors :=
    if existsb (λ p, test p filename) JUNK_PATTERNS
    then errors ++ [junk_message filename]
    else errors in
  content ← Fs.readFileSync (target f);
  if Js.startsWith content "---"
  then match Js.split content "---" !! 1 with
       | Some frontmatter => Ok (check_fields frontmatter errors)
       | None =>
           Throw "TypeError: Cannot read properties of undefined"
       end
  else Ok errors.

Definition header (file : string) : string := nl +:+ "❌ " +:+ file +:+ ":".

Definition failed_summary (totalErrors : nat) : string :=
  nl +:+ "❌ Validation failed: " +:+ Js.numberToString totalErrors
     +:+ " errors".

Definition ok_summary : string := nl +:+ "✅ All docs validated".

(** The loop of [validate] over [files], followed by the final test. *)
Fixpoint validate_loop (files : list file) (totalErrors : nat)
    (stdout : list string) : outcome :=
  match files with
  | [] =>
      if 0 <? totalErrors
      then Exit (stdout ++ [failed_summary totalErrors]) 1
      else Exit (stdout ++ [ok_summary]) 0
  | file :: rest =>
      match validateFile file with
      | Throw e => Uncaught stdout e
      | Ok errors =>
          if 0 <? length errors
          then validate_loop rest (totalErrors + length errors)
                 (stdout ++ [header (path file)]
                         ++ map (λ e, "   " +:+ e) errors)
          else validate_loop rest totalErrors stdout
      end
  end.

(** [validate()], run in the directory whose entries are [root]. *)
Definition validate (root : list (string * Fs.node)) : outcome :=
  let files := findMarkdownFiles "." (Fs.Dir root) [] in
  validate_loop files 0 [].

End Loose.

(** ** The stricter Validator *)
Module Strict.

Definition JUNK_PATTERNS : list regexp := [
  RegExp (lit "SUMMARY") true false;
  RegExp (lit "COMPLETE") true false;
  RegExp (lit "FIXES") true false;
  RegExp (lit "SESSION") true false;
  RegExp (lit "PROMPT") true false;
  RegExp (lit "STATUS") true false;
  RegExp (lit "AUDIT") true false;
  RegExp (lit "VERIFICATION") true false
].

Definition REQUIRED_FRONTMATTER : list string := ["title"; "description"].
Definition VALIDATION_ROOTS : gset string :=
  {[ "guide"; "api"; "components" ]}.
Definition IGNORE_DIRS : gset string :=
  {[ "node_modules"; ".git"; ".github"; ".vscode" ]}.

(** [set.has(x)] *)
Definition has (set : gset string) (x : string) : bool :=
  bool_decide (x ∈ set).

Definition shouldValidate (filepath : string) : bool :=
  let parts := Js.split filepath Js.sep in
  let root := default "" (head parts) in
  if has VALIDATION_ROOTS root then true
  else String.eqb filepath "index.md".

(** An element of [files], with the node the file system holds at
    [fullPath]. *)
Record file : Type := MkFile {
  fullPath : string;
  relPath : string;
  target : Fs.node
}.

(** [relative(process.cwd(), fullPath)]: the traversal starts at ['.'],
    so [fullPath] is already relative to the working directory. *)
Definition relative_cwd (fullPath : string) : string := fullPath.

(** [findMarkdownFiles(dir, files)], where [d] is the directory at
    [dir]. *)
Fixpoint findMarkdownFiles (dir : string) (d : Fs.node) (files : list file)
    {struct d} : list file :=
  match d with
  | Fs.File _ => files
  | Fs.Dir items =>
      (fix each (items : list (string * Fs.node)) (files : list file)
         : list file :=
         match items with
         | [] => files
         | (item, child) :: rest =>
             let fullPath := Js.join dir item in
             if Fs.isDirectory child
             then if has IGNORE_DIRS item || Js.startsWith item "."
                  then each rest files
                  else each rest (findMarkdownFiles fullPath child files)
             else if Js.endsWith item ".md"
             then let relPath := relative_cwd fullPath in
                  if shouldValidate relPath
                  then each rest (files ++ [MkFile fullPath relPath child])
                  else each rest files
             else each rest files
         end) items files
  end.

(** [/^---\n([\s\S]*?)\n---/] *)
Definition FRONTMATTER : regexp :=
  RegExp ([Bol] ++ lit "---" ++ [Lit LF; Open; Star AnyChar false; Close;
                                 Lit LF] ++ lit "---") false false.

(** [match ? match[1] : null] *)
Definition extractFrontmatter (content : string) : option string :=
  match exec FRONTMATTER content with
  | Some (Some block) => Some block
  | _ => None
  end.

(** [new RegExp(`^${field}:`, 'm')] for a field name without
    metacharacters. *)
Definition fieldPattern (field : string) : regexp :=
  RegExp ([Bol] ++ lit (field +:+ ":")) false true.

Definition junk_message (filename : string) : string :=
  "Junk doc detected: " +:+ filename.

Definition field_message (field : string) : string :=
  "Missing frontmatter: " +:+ field.

(** The loop over [REQUIRED_FRONTMATTER]. *)
Definition check_fields (frontmatter : string) (errors : list string)
  : list string :=
  foldl (λ errors field,
           if negb (test (fieldPattern field) frontmatter)
           then errors ++ [field_message field]
           else errors)
        errors REQUIRED_FRONTMATTER.

(** [!frontmatter]: [null] and the empty string are falsy. *)
Definition falsy (frontmatter : option string) : bool :=
  match frontmatter with
  | None => true
  | Some s => String.eqb s ""
  end.

Definition validateFile (f : file) : result (list string) :=
  let filename := Js.pop (Js.split (relPath f) Js.sep) in
  let errors := [] in
  let errors :=
    if existsb (λ p, test p filename) JUNK_PATTERNS
    then errors ++ [junk_message filename]
    else errors in
  content ← Fs.readFileSync (target f);
  let frontmatter := extractFrontmatter content in
  if falsy frontmatter
  then Ok (errors ++ ["Missing frontmatter block"])
  else Ok (check_fields (default "" frontmatter) errors).

Definition header (file : string) : string := nl +:+ "❌ " +:+ file +:+ ":".

Definition failed_summary (totalErrors : nat) : string :=
  nl +:+ "❌ Validation failed: " +:+ Js.numberToString totalErrors
     +:+ " errors".

Definition ok_summary : string := nl +:+ "✅ All docs validated".

(** The loop of [validate] over [files], followed by the final test. *)
Fixpoint validate_loop (files : list file) (totalErrors : nat)
    (stdout : list string) : outcome :=
  match files with
  | [] =>
      if 0 <? totalErrors
      then Exit (stdout ++ [failed_summary totalErrors]) 1
      else Exit (stdout ++ [ok_summary]) 0
  | file :: rest =>
      match validateFile file with
      | Throw e => Uncaught stdout e
      | Ok errors =>
          if 0 <? length errors
          then validate_loop rest (totalErrors + length errors)
                 (stdout ++ [header (relPath file)]
                         ++ map (λ e, "   " +:+ e) errors)
          else validate_loop rest totalErrors stdout
      end
  end.

(** [validate()], run in the directory whose entries are [root]. *)
Definition validate (root : list (string * Fs.node)) : outcome :=
  let files := findMarkdownFiles "." (Fs.Dir root) [] in
  validate_loop files 0 [].

End Strict.

(** ** path.join of Node, on POSIX *)
Module Path.

(** [normalizeString] segment by segment, from left to right; [res]
    holds the segments kept so far, the last one first.  An empty segment
    and [.] are dropped; [..] takes away the segment before it, and when
    there is none, or it is [..] itself, [..] is kept in a relative path
    and dropped in an absolute one. *)
Fixpoint normalizeString (segments : list string) (allowAboveRoot : bool)
    (res : list string) : list string :=
  match segments with
  | [] => reverse res
  | segment :: rest =>
      if String.eqb segment "" || String.eqb segment "."
      then normalizeString rest allowAboveRoot res
      else if String.eqb segment ".."
      then match res with
           | last :: res' =>
               if String.eqb last ".."
               then normalizeString rest allowAboveRoot
                      (if allowAboveRoot then ".." :: res else res)
               else normalizeString rest allowAboveRoot res'
           | [] =>
               normalizeString rest allowAboveRoot
                 (if allowAboveRoot then [".."] else [])
           end
      else normalizeString rest allowAboveRoot (segment :: res)
  end.

(** The segments with a slash between them. *)
Fixpoint concat_sep (segments : list string) : string :=
  match segments with
  | [] => ""
  | segment :: rest =>
      match rest with
      | [] => segment
      | _ => segment +:+ "/" +:+ concat_sep rest
      end
  end.

(** [path.normalize(path)] *)
Definition normalize (path : string) : string :=
  if String.eqb path "" then "."
  else
    let isAbsolute := Js.startsWith path "/" in
    let trailingSeparator := Js.endsWith path "/" in
    let res :=
      concat_sep (normalizeString (Js.split path "/") (negb isAbsolute) []) in
    if String.eqb res ""
    then if isAbsolute then "/"
         else if trailingSeparator then "./" else "."
    else
      let res := if trailingSeparator then res +:+ "/" else res in
      if isAbsolute then "/" +:+ res else res.

(** [path.join(a, b)] *)
Definition join (a b : string) : string :=
  let joined :=
    if String.eqb a "" then b
    else if String.eqb b "" then a
    else a +:+ "/" +:+ b in
  if String.eqb joined "" then "." else normalize joined.

End Path.

(** ** scripts/sync-docs.js: the Sync Engine *)
Module Sync.

(** The object literal, as the list [Object.entries] enumerates: its
    keys in insertion order. *)
Definition APPROVED_SOURCES : list (string * string) := [
  ("/mnt/development/README.md", "guide/index.md");
  ("/mnt/development/AI_MASTER_GUIDE.md", "guide/ai-guide.md");
  ("/mnt/development/CODING_GUIDELINES.md", "guide/coding-guidelines.md");
  ("/mnt/development/TYPE_SAFETY_RULES.md", "guide/type-safety.md");
  ("/mnt/development/I18N_AND_ACCESSIBILITY_REQUIREMENTS.md",
   "guide/accessibility.md");
  ("/mnt/development/DATABASE_CONNECTION_GUIDE.md", "guide/database.md");
  ("/mnt/development/CLOUDFLARE_MANAGEMENT_GUIDE.md", "guide/deployment.md")
].

Definition BLOCKED_PATTERNS : list regexp := [
  RegExp (lit "SUMMARY") true false;
  RegExp (lit "COMPLETE") true false;
  RegExp (lit "FIXES") true false;
  RegExp (lit "SESSION") true false;
  RegExp (lit "PROMPT") true false;
  RegExp (lit "STATUS") true false;
  RegExp (lit "AUDIT") true false
].

Definition isJunkDoc (filename : string) : bool :=
  existsb (λ pattern, test pattern filename) BLOCKED_PATTERNS.

(** The three calls of [fs] that the script makes, on a file system of
    any kind.  Each call sees the file system as the calls before it
    left it.  [existsSync] answers for every path; reading and writing
    can throw, whatever the reason: a directory in the place of a file, a
    missing directory, missing rights, a full disk. *)
Class FileSystem (FS : Type) : Type := {
  existsSync : FS → string → bool;
  readFileSync : FS → string → result string;
  writeFileSync : FS → string → string → result FS
}.

(** The variables of [syncDocs], the file system and the console. *)
Record state (FS : Type) : Type := MkState {
  fs : FS;
  stdout : list string;
  synced : nat;
  blocked : nat
}.
Arguments MkState {FS} fs stdout synced blocked.
Arguments fs {FS} s.
Arguments stdout {FS} s.
Arguments synced {FS} s.
Arguments blocked {FS} s.

Section syncDocs.
Context {FS : Type} `{!FileSystem FS}.

(** One iteration of the loop, in working directory [cwd]. *)
Definition step (cwd : string) (st : state FS) (entry : string * string)
  : result (state FS) :=
  let '(source, dest) := entry in
  if isJunkDoc source
  then Ok (MkState (fs st) (stdout st ++ ["❌ Blocked: " +:+ source])
                   (synced st) (blocked st + 1))
  else if existsSync (fs st) source
  then content ← readFileSync (fs st) source;
       let destPath := Path.join cwd dest in
       fs' ← writeFileSync (fs st) destPath content;
       Ok (MkState fs'
                   (stdout st ++ ["✅ Synced: " +:+ source +:+ " → " +:+ dest])
                   (synced st + 1) (blocked st))
  else Ok st.

Fixpoint loop (cwd : string) (entries : list (string * string))
    (st : state FS) : result (state FS) :=
  match entries with
  | [] => Ok st
  | entry :: rest => st' ← step cwd st entry; loop cwd rest st'
  end.

Definition summary (st : state FS) : string :=
  nl +:+ "📊 Summary: " +:+ Js.numberToString (synced st) +:+ " synced, "
     +:+ Js.numberToString (blocked st) +:+ " blocked".

(** [syncDocs()] over the mapping [sources], started in working
    directory [cwd] on the file system [fs0].  An exception that a call
    throws is caught nowhere: the run ends with it. *)
Definition syncDocs (sources : list (string * string)) (cwd : string)
    (fs0 : FS) : result (state FS) :=
  st ← loop cwd sources (MkState fs0 [] 0 0);
  Ok (MkState (fs st) (stdout st ++ [summary st]) (synced st) (blocked st)).

End syncDocs.

End Sync.

(** ** A disk

    A file system of directories and regular files, each under its
    absolute, normalised path, without links and without rights: the file
    system of the examples. *)
Module Disk.

Inductive entry : Type :=
| File (content : string)
| Directory.

Abbreviation disk := (gmap string entry).

(** What the disk holds at a path; the root is always there. *)
Definition at_path (d : disk) (p : string) : option entry :=
  if String.eqb p "/" then Some Directory else d !! p.

(** The directory of a path. *)
Definition dirname (p : string) : string := Path.normalize (p +:+ "/..").

Definition existsSync (d : disk) (p : string) : bool :=
  bool_decide (is_Some (at_path d p)).

Definition readFileSync (d : disk) (p : string) : result string :=
  match at_path d p with
  | Some (File content) => Ok content
  | Some Directory => Throw "EISDIR: illegal operation on a directory, read"
  | None => Throw ("ENOENT: no such file or directory, open '" +:+ p +:+ "'")
  end.

(** Writing creates the file or replaces its whole content; it throws
    when the path is a directory or its directory is missing. *)
Definition writeFileSync (d : disk) (p content : string) : result disk :=
  match at_path d p with
  | Some Directory =>
      Throw ("EISDIR: illegal operation on a directory, open '" +:+ p +:+ "'")
  | _ =>
      match at_path d (dirname p) with
      | Some Directory => Ok (<[p := File content]> d)
      | Some (File _) => Throw ("ENOTDIR: not a directory, open '" +:+ p +:+ "'")
      | None =>
          Throw ("ENOENT: no such file or directory, open '" +:+ p +:+ "'")
      end
  end.

#[global] Instance disk_fs : Sync.FileSystem disk := {|
  Sync.existsSync := existsSync;
  Sync.readFileSync := readFileSync;
  Sync.writeFileSync := writeFileSync
|}.

End Disk.

(** ** The contract of the Sync Engine, in the words of its description *)
Module SyncContract.

Section contract.
Context {FS : Type} `{!Sync.FileSystem FS}.

(** What one entry of the mapping does to the file system: a blocked
    source and a missing source leave it as it is, an existing source is
    read and its content written over the destination. *)
Definition copy (cwd : string) (fs : FS) (entry : string * string)
  : result FS :=
  if Sync.isJunkDoc entry.1 then Ok fs
  else if Sync.existsSync fs entry.1
  then content ← Sync.readFileSync fs entry.1;
       Sync.writeFileSync fs (Path.join cwd entry.2) content
  else Ok fs.

(** The entries one after the other. *)
Fixpoint run (cwd : string) (fs : FS) (entries : list (string * string))
  : result FS :=
  match entries with
  | [] => Ok fs
  | entry :: rest => fs' ← copy cwd fs entry; run cwd fs' rest
  end.

(** Each entry with the file system it is processed in. *)
Fixpoint timeline (cwd : string) (entries : list (string * string))
    (fs : FS) : list ((string * string) * FS) :=
  match entries with
  | [] => []
  | entry :: rest =>
      (entry, fs) :: match copy cwd fs entry with
                     | Ok fs' => timeline cwd rest fs'
                     | Throw _ => []
                     end
  end.

(** The source of the entry is not blocked and exists in [fs]. *)
Definition copied (fs : FS) (entry : string * string) : bool :=
  negb (Sync.isJunkDoc entry.1) && Sync.existsSync fs entry.1.

(** The line that the entry prints when it is processed in [fs]. *)
Definition line (fs : FS) (entry : string * string) : list string :=
  if Sync.isJunkDoc entry.1 then ["❌ Blocked: " +:+ entry.1]
  else if Sync.existsSync fs entry.1
  then ["✅ Synced: " +:+ entry.1 +:+ " → " +:+ entry.2]
  else [].

(** No write at a destination of the mapping changes whether a source of
    the mapping exists. *)
Definition stable (cwd : string) (entries : list (string * string))
  : Prop :=
  ∀ (fs fs' : FS) e e' content,
    e ∈ entries → e' ∈ entries →
    Sync.writeFileSync fs (Path.join cwd e.2) content = Ok fs' →
    Sync.existsSync fs' e'.1 = Sync.existsSync fs e'.1.

(** No write at a destination of the mapping changes what reading a
    source of the mapping yields. *)
Definition sources_kept (cwd : string) (entries : list (string * string))
  : Prop :=
  ∀ (fs fs' : FS) e e' content,
    e ∈ entries → e' ∈ entries →
    Sync.writeFileSync fs (Path.join cwd e.2) content = Ok fs' →
    Sync.readFileSync fs' e'.1 = Sync.readFileSync fs e'.1.

(** [fs] holds the sources of the mapping as [fs0] holds them. *)
Definition same_sources (entries : list (string * string)) (fs fs0 : FS)
  : Prop :=
  ∀ e, e ∈ entries →
    Sync.existsSync fs e.1 = Sync.existsSync fs0 e.1
    ∧ Sync.readFileSync fs e.1 = Sync.readFileSync fs0 e.1.

(** What a write has written can be read at the path of the write, and
    a write at one destination of the mapping leaves what can be read at
    every other one. *)
Definition written_stays (cwd : string) (entries : list (string * string))
  : Prop :=
  ∀ (fs fs' : FS) e content,
    e ∈ entries →
    Sync.writeFileSync fs (Path.join cwd e.2) content = Ok fs' →
    Sync.readFileSync fs' (Path.join cwd e.2) = Ok content
    ∧ ∀ e', e' ∈ entries →
            Path.join cwd e'.2 ≠ Path.join cwd e.2 →
            Sync.readFileSync fs' (Path.join cwd e'.2)
            = Sync.readFileSync fs (Path.join cwd e'.2).

End contract.

End SyncContract.

(** ** scripts/validate-docs.js: the link loop of [validateFile] *)
Module Links.

(** The pattern without its group marks. *)
Definition ungroup (ts : list term) : list term :=
  List.filter (λ t, match t with
                    | Open | Close => false
                    | _ => true
                    end) ts.

(** The matched text, element 0 of a match: what the one group captures
    when it is put around the whole pattern. *)
Definition whole (re : regexp) : regexp :=
  RegExp ([Open] ++ ungroup (source re) ++ [Close])
         (ignoreCase re) (multiline re).

(** The matches of a regular expression with the [g] flag from left to
    right: each search starts where the match before it ended, one code
    unit further on after an empty match ([skip] counts the code units
    still to jump over). *)
Fixpoint matchAll_from (re : regexp) (skip : nat) (prev : option codeunit)
    (s : string) {struct s} : list string :=
  let next skip :=
    match s with
    | "" => []
    | String a s' => matchAll_from re skip (Some a) s'
    end in
  match skip with
  | S k => next k
  | O =>
      match run (whole re) (source (whole re)) prev None None s with
      | Some (Some m) => m :: next (String.length m - 1)
      | _ => next 0
      end
  end.

(** [s.match(re)] for a regular expression with the [g] flag: [None] is
    [null], returned when nothing matches. *)
Definition matchAll (re : regexp) (s : string) : option (list string) :=
  match matchAll_from re 0 None s with
  | [] => None
  | matches => Some matches
  end.

(** [/\[.*?\]\((.*?)\)/g] *)
Definition LINK : regexp :=
  RegExp [Lit "["%char; Star NotLineTerminator false; Lit "]"%char;
          Lit "("%char; Open; Star NotLineTerminator false; Close;
          Lit ")"%char] false false.

(** [/\((.*?)\)/] *)
Definition URL : regexp :=
  RegExp [Lit "("%char; Open; Star NotLineTerminator false; Close;
          Lit ")"%char] false false.

(** The body of the loop: [link.match(...)[1]] throws on [null], and
    [url.startsWith] on [undefined]; the [if] has nothing in it. *)
Definition check_link (link : string) : result unit :=
  match exec URL link with
  | None => Throw "TypeError: Cannot read properties of null"
  | Some None => Throw "TypeError: Cannot read properties of undefined"
  | Some (Some url) =>
      if Js.startsWith url "/" && negb (Js.startsWith url "http")
      then Ok tt
      else Ok tt
  end.

Fixpoint check_links (links : list string) : result unit :=
  match links with
  | [] => Ok tt
  | link :: rest => _ ← check_link link; check_links rest
  end.

(** [validateFile(filepath)] with its link loop. *)
Definition validateFile (f : Loose.file) : result (list string) :=
  let filename := Js.pop (Js.split (Loose.path f) "/") in
  let errors := [] in
  let errors :=
    if existsb (λ p, test p filename) Loose.JUNK_PATTERNS
    then errors ++ [Loose.junk_message filename]
    else errors in
  content ← Fs.readFileSync (Loose.target f);
  errors ← (if Js.startsWith content "---"
            then match Js.split content "---" !! 1 with
                 | Some frontmatter =>
                     Ok (Loose.check_fields frontmatter errors)
                 | None =>
                     Throw "TypeError: Cannot read properties of undefined"
                 end
            else Ok errors);
  let links := default [] (matchAll LINK content) in
  _ ← check_links links;
  Ok errors.

End Links.

(** ** Vocabulary of the statements *)

(** A string with every code unit folded as the [i] flag of [re] asks. *)
Fixpoint canonical (re : regexp) (s : string) : string :=
  match s with
  | "" => ""
  | String c s' => String (canonicalize re c) (canonical re s')
  end.

(** A string with [a-z] folded to [A-Z], as the [i] flag folds it for the
    comparison with pattern characters below 128. *)
Fixpoint fold_case (s : string) : string :=
  match s with
  | "" => ""
  | String c s' => String (fold_unit c) (fold_case s')
  end.

(** Every code unit of [s] is in the class [cs]. *)
Fixpoint all_in (cs : charset) (s : string) : bool :=
  match s with
  | "" => true
  | String c s' => in_set cs c && all_in cs s'
  end.

(** What follows the group of the delimiter pattern: its end, a line feed
    and three hyphens. *)
Definition closing : option codeunit → option string → string → attempt :=
  λ prev grp s,
    run Strict.FRONTMATTER
        [Close; Lit LF; Lit "-"%char; Lit "-"%char; Lit "-"%char]
        prev grp None s.

(** [key:] stands at the start of a line of [block]. *)
Definition line_prefix (key block : string) : Prop :=
  ∃ pre post,
    block = pre +:+ (key +:+ ":") +:+ post
    ∧ (pre = ""
       ∨ ∃ pre' c, pre = pre' +:+ String c ""
                   ∧ Js.isLineTerminator c = true).

(** The content opens with a block in the sense of the delimiter pattern:
    three hyphens and a line feed, the block, a line feed and three
    hyphens. *)
Definition has_frontmatter_block (content : string) : Prop :=
  ∃ block tail, content = ("---" +:+ nl) +:+ block +:+ (nl +:+ "---") +:+ tail.

(** No occurrence of [sep] starts within the first [n] code units of
    [s]. *)
Fixpoint clear_of (sep : string) (n : nat) (s : string) : bool :=
  match n, s with
  | S n', String _ s' => negb (String.prefix sep s) && clear_of sep n' s'
  | _, _ => true
  end.

(** The text of [s] before its first occurrence of [sep], all of [s] when
    there is none. *)
Definition first_piece (s sep : string) : string :=
  default "" (head (Js.split s sep)).

(** [word], in any case, occurs in the name, and the name goes on without
    a line break to a final [.md], in any case. *)
Definition word_then_md (word filename : string) : Prop :=
  ∃ pre w mid ext,
    filename = pre +:+ w +:+ mid +:+ ext
    ∧ fold_case w = fold_case word
    ∧ all_in NotLineTerminator mid = true
    ∧ fold_case ext = ".MD".

(** The names the patterns of the loose Validator match. *)
Definition LOOSE_SUFFIXES : list string :=
  ["SUMMARY.MD"; "COMPLETE.MD"; "FIXES.MD"; "STATUS.MD"; "_AUDIT.MD";
   "VERIFICATION.MD"].

Definition loose_blocked (filename : string) : Prop :=
  existsb (Js.endsWith (fold_case filename)) LOOSE_SUFFIXES = true
  ∨ word_then_md "SESSION" filename
  ∨ word_then_md "PROMPT" filename.

(** The errors a file name earns, in each Validator. *)
Definition loose_junk (filename : string) : list string :=
  if existsb (λ p, test p filename) Loose.JUNK_PATTERNS
  then [Loose.junk_message filename] else [].

Definition strict_junk (filename : string) : list string :=
  if existsb (λ p, test p filename) Strict.JUNK_PATTERNS
  then [Strict.junk_message filename] else [].

(** An error about the file name. *)
Definition is_junk_error (e : string) : bool :=
  Js.startsWith e "Junk doc detected: ".

(** The blocked words of the stricter Validator. *)
Definition JUNK_WORDS : list string :=
  ["SUMMARY"; "COMPLETE"; "FIXES"; "SESSION"; "PROMPT"; "STATUS"; "AUDIT";
   "VERIFICATION"].

(** The file name of a path. *)
Definition basename (filepath : string) : string :=
  Js.pop (Js.split filepath "/").

(** The markdown files the traversal of the stricter Validator comes
    across under the directory [d] at [dir], before the root filter. *)
Fixpoint strict_discovered (dir : string) (d : Fs.node)
  : list Strict.file :=
  match d with
  | Fs.File _ => []
  | Fs.Dir items =>
      (fix each (items : list (string * Fs.node)) : list Strict.file :=
         match items with
         | [] => []
         | (item, child) :: rest =>
             let fullPath := Js.join dir item in
             (if Fs.isDirectory child
              then if Strict.has Strict.IGNORE_DIRS item
                      || Js.startsWith item "."
                   then []
                   else strict_discovered fullPath child
              else if Js.endsWith item ".md"
              then [Strict.MkFile fullPath (Strict.relative_cwd fullPath)
                                  child]
              else [])
             ++ each rest
         end) items
  end.

(** The path lies under one of the three root directories, or is the
    index file of the top level. *)
Definition allowed_path (p : string) : Prop :=
  (∃ root rest, root ∈ Strict.VALIDATION_ROOTS ∧ p = root +:+ "/" +:+ rest)
  ∨ p = "index.md".

(** What a run prints for one file: nothing when it has no error, else a
    header and one line for each error. *)
Definition report (header : string) (errors : list string) : list string :=
  if 0 <? length errors
  then header :: map (λ e, "   " +:+ e) errors
  else [].

(** The errors of a file that is read without an exception. *)
Definition strict_errors (f : Strict.file) : list string :=
  match Strict.validateFile f with
  | Ok errors => errors
  | Throw _ => []
  end.

Definition loose_errors (f : Loose.file) : list string :=
  match Loose.validateFile f with
  | Ok errors => errors
  | Throw _ => []
  end.

(** The last line and the exit status for a total number of errors. *)
Definition verdict (stdout : list string) (totalErrors : nat) : outcome :=
  if 0 <? totalErrors
  then Exit (stdout ++ [Strict.failed_summary totalErrors]) 1
  else Exit (stdout ++ [Strict.ok_summary]) 0.

(** The loose traversal keeps [f] under the directory [d] at [dir]: an
    entry that is not a directory with a name without a leading dot, and
    whose name ends in [.md], of [d] or of a directory below it that is
    reached through names without a leading dot. *)
Inductive loose_kept : string → Fs.node → Loose.file → Prop :=
| loose_kept_here dir items item child :
    (item, child) ∈ items →
    Fs.isDirectory child && negb (Js.startsWith item ".") = false →
    Js.endsWith item ".md" = true →
    loose_kept dir (Fs.Dir items) (Loose.MkFile (Js.join dir item) child)
| loose_kept_below dir items item child f :
    (item, child) ∈ items →
    Fs.isDirectory child && negb (Js.startsWith item ".") = true →
    loose_kept (Js.join dir item) child f →
    loose_kept dir (Fs.Dir items) f.

(** The name of a directory entry: not empty, without a slash, and
    neither [.] nor [..]. *)
Definition entry_name (name : string) : Prop :=
  name ≠ "" ∧ name ≠ "." ∧ name ≠ ".." ∧ Js.includes name "/" = false.

(** The directory that the traversals reach through the entries
    [segments] from ['.']. *)
Definition reached (segments : list string) : string :=
  match segments with
  | [] => "."
  | _ => Path.concat_sep segments
  end.

(** * Properties *)

(** ** Strings *)
Section strings.
#[local] Arguments String.append : simpl nomatch.
Implicit Types (s p t : string) (c : codeunit).

Lemma string_eqb_eq s : ∀ t, String.eqb s t = true ↔ s = t.
Proof.
  induction s as [|c s IH]; intros [|c' t]; cbn; [done..|].
  rewrite andb_true_iff, N.eqb_eq, IH. split; [by intros [-> ->]|].
  by intros [= -> ->].
Qed.

Lemma string_eqb_neq s t : String.eqb s t = false ↔ s ≠ t.
Proof.
  rewrite <- string_eqb_eq. by destruct (String.eqb s t).
Qed.

Lemma string_eqb_spec s t : reflect (s = t) (String.eqb s t).
Proof. apply iff_reflect. by rewrite string_eqb_eq. Qed.

Lemma string_eqb_sym s t : String.eqb s t = String.eqb t s.
Proof.
  destruct (string_eqb_spec s t) as [->|Hne].
  - symmetry. by apply string_eqb_eq.
  - symmetry. apply string_eqb_neq. by intros ->.
Qed.

#[global] Instance sapp_inj s : Inj (=) (=) (String.append s).
Proof.
  intros t t'. induction s as [|c s IH]; cbn; [done|].
  intros [= Heq]. by apply IH.
Qed.

Lemma sapp_cons c s t : String c s +:+ t = String c (s +:+ t).
Proof. reflexivity. Qed.

Lemma sapp_nil_r s : s +:+ "" = s.
Proof. induction s as [|c s IH]; simpl; [done|by rewrite IH]. Qed.

Lemma sapp_assoc s p t : (s +:+ p) +:+ t = s +:+ p +:+ t.
Proof. induction s as [|c s IH]; simpl; [done|by rewrite IH]. Qed.

Lemma prefix_nil s : String.prefix "" s = true.
Proof. by destruct s. Qed.

Lemma prefix_cons c c' p s :
  String.prefix (String c p) (String c' s)
  = bool_decide (c = c') && String.prefix p s.
Proof.
  simpl. destruct (N.eqb_spec c c') as [->|Hne].
  - by rewrite bool_decide_eq_true_2.
  - by rewrite bool_decide_eq_false_2.
Qed.

Lemma prefix_iff p : ∀ s, String.prefix p s = true ↔ ∃ t, s = p +:+ t.
Proof.
  induction p as [|c p IH]; intros s.
  - rewrite prefix_nil. split; [|done]. intros _. by exists s.
  - destruct s as [|c' s].
    + simpl. split; [done|]. by intros [t ?].
    + rewrite prefix_cons, andb_true_iff, bool_decide_eq_true, IH.
      split.
      * intros [-> [t ->]]. by exists t.
      * intros [t Ht]. simpl in Ht. injection Ht as -> ->. eauto.
Qed.

Lemma prefix_app p s : String.prefix p (p +:+ s) = true.
Proof. apply prefix_iff. by exists s. Qed.

Lemma startsWith_iff s p : Js.startsWith s p = true ↔ ∃ t, s = p +:+ t.
Proof. apply prefix_iff. Qed.

Lemma includes_nil p : Js.includes "" p = String.prefix p "".
Proof. unfold Js.includes. by rewrite orb_false_r. Qed.

Lemma includes_cons c s p :
  Js.includes (String c s) p
  = String.prefix p (String c s) || Js.includes s p.
Proof. reflexivity. Qed.

Lemma includes_iff p : ∀ s,
  Js.includes s p = true ↔ ∃ a b, s = a +:+ p +:+ b.
Proof.
  induction s as [|c s IH].
  - rewrite includes_nil, prefix_iff. split.
    + intros [t Ht]. by exists "", t.
    + intros (a & b & Hab). destruct a; [by exists b|done].
  - rewrite includes_cons, orb_true_iff, prefix_iff, IH. split.
    + intros [[t Ht]|(a & b & ->)].
      * by exists "", t.
      * by exists (String c a), b.
    + intros (a & b & Hab). destruct a as [|c' a].
      * left. by exists b.
      * right. simpl in Hab. injection Hab as -> ->. by exists a, b.
Qed.

Lemma endsWith_nil p : Js.endsWith "" p = String.eqb "" p.
Proof. unfold Js.endsWith. by rewrite orb_false_r. Qed.

Lemma endsWith_cons c s p :
  Js.endsWith (String c s) p = String.eqb (String c s) p || Js.endsWith s p.
Proof. reflexivity. Qed.

Lemma endsWith_iff p : ∀ s, Js.endsWith s p = true ↔ ∃ a, s = a +:+ p.
Proof.
  induction s as [|c s IH].
  - rewrite endsWith_nil, string_eqb_eq. split.
    + intros <-. by exists "".
    + intros [a Ha]. by destruct a.
  - rewrite endsWith_cons, orb_true_iff, string_eqb_eq, IH. split.
    + intros [<-|[a ->]]; [by exists ""|by exists (String c a)].
    + intros [a Ha]. destruct a as [|c' a].
      * by left.
      * right. simpl in Ha. injection Ha as -> ->. by exists a.
Qed.

End strings.

(** ** Regular expressions *)
Section regex.
#[local] Arguments String.append : simpl nomatch.
Implicit Types (re : regexp) (s w : string) (c a : codeunit).

Lemma canonical_plain re s : ignoreCase re = false → canonical re s = s.
Proof.
  intros Hi. induction s as [|c s IH]; simpl; [done|].
  unfold canonicalize. by rewrite Hi, IH.
Qed.

Lemma canonical_fold re s :
  ignoreCase re = true → canonical re s = fold_case s.
Proof.
  intros Hi. induction s as [|c s IH]; simpl; [done|].
  unfold canonicalize. by rewrite Hi, IH.
Qed.

(** A run of pattern characters matches exactly the strings that start
    with them, after folding. *)
Lemma run_lit re w : ∀ prev cap s,
  run re (lit w) prev None cap s
  = if String.prefix (canonical re w) (canonical re s)
    then Some cap else None.
Proof.
  induction w as [|c w IH]; intros prev cap s.
  - done.
  - destruct s as [|a s]; [done|].
    cbn [lit run canonical push fmap option_fmap option_map].
    rewrite prefix_cons. unfold char_eq.
    destruct (N.eqb_spec (canonicalize re c) (canonicalize re a))
      as [Heq|Hne].
    + rewrite bool_decide_eq_true_2 by done. apply IH.
    + by rewrite bool_decide_eq_false_2.
Qed.

Lemma run_lit_app_fail re w ts : ∀ prev cap s,
  String.prefix (canonical re w) (canonical re s) = false →
  run re (lit w ++ ts) prev None cap s = None.
Proof.
  induction w as [|c w IH]; intros prev cap s Hp.
  - cbn [canonical] in Hp. by rewrite prefix_nil in Hp.
  - destruct s as [|a s]; [done|].
    cbn [canonical] in Hp. rewrite prefix_cons in Hp.
    cbn [lit app run push fmap option_fmap option_map]. unfold char_eq.
    destruct (N.eqb_spec (canonicalize re c) (canonicalize re a))
      as [Heq|Hne]; [|done].
    rewrite bool_decide_eq_true_2 in Hp by done. by apply IH.
Qed.

Lemma search_unfold re prev s :
  search re prev s
  = match run re (source re) prev None None s with
    | Some r => Some r
    | None =>
        match s with
        | "" => None
        | String a s' => search re (Some a) s'
        end
    end.
Proof. by destruct s. Qed.

Lemma run_Bol re ts prev grp cap s :
  run re (Bol :: ts) prev grp cap s
  = if at_line_start re prev then run re ts prev grp cap s else None.
Proof. reflexivity. Qed.

(** Searching for a run of pattern characters is [includes] after
    folding. *)
Lemma search_lit re w :
  source re = lit w →
  ∀ s prev,
    search re prev s
    = if Js.includes (canonical re s) (canonical re w)
      then Some None else None.
Proof.
  intros Hsrc. induction s as [|a s IH]; intros prev.
  - cbn [search canonical]. rewrite Hsrc, run_lit, includes_nil.
    cbn [canonical]. by destruct (String.prefix _ _).
  - cbn [search canonical]. rewrite Hsrc, run_lit, includes_cons.
    cbn [canonical]. destruct (String.prefix _ _); [done|]. apply IH.
Qed.

Lemma test_lit_ci w m s :
  test (RegExp (lit w) true m) s
  = Js.includes (fold_case s) (fold_case w).
Proof.
  unfold test, exec. rewrite (search_lit _ w) by done.
  rewrite !canonical_fold by done. by destruct (Js.includes _ _).
Qed.

(** *** The field pattern of the stricter Validator *)

Lemma run_fieldPattern field prev s :
  run (Strict.fieldPattern field) (source (Strict.fieldPattern field))
      prev None None s
  = if at_line_start (Strict.fieldPattern field) prev
       && String.prefix (field +:+ ":") s
    then Some None else None.
Proof.
  cbn [Strict.fieldPattern source app run].
  destruct (at_line_start _ prev); [|done].
  rewrite run_lit, !canonical_plain by done. done.
Qed.

Lemma search_fieldPattern field : ∀ s prev,
  is_Some (search (Strict.fieldPattern field) prev s)
  ↔ ∃ pre post,
      s = pre +:+ (field +:+ ":") +:+ post
      ∧ ((pre = "" ∧ at_line_start (Strict.fieldPattern field) prev = true)
         ∨ ∃ pre' c, pre = pre' +:+ String c ""
                     ∧ Js.isLineTerminator c = true).
Proof.
  induction s as [|a s IH]; intros prev.
  - cbn [search]. rewrite run_fieldPattern. split.
    + destruct (at_line_start _ prev) eqn:Hp; cbn [andb];
        [|by intros [? ?]].
      destruct (String.prefix (field +:+ ":") "") eqn:Hk;
        [|by intros [? ?]].
      intros _. apply prefix_iff in Hk as [t Ht].
      exists "", t. split; [done|]. by left.
    + intros (pre & post & Heq & Hpre).
      destruct pre as [|? ?]; [|done].
      destruct Hpre as [[_ Hp]|(pre' & c & Hc & _)];
        [|by destruct pre'].
      simpl in Heq. rewrite Hp, (proj2 (prefix_iff _ _)) by eauto. done.
  - cbn [search]. rewrite run_fieldPattern. split.
    + destruct (at_line_start _ prev && String.prefix (field +:+ ":") _)
        eqn:Hk.
      * intros _. apply andb_true_iff in Hk as [Hp Hk].
        apply prefix_iff in Hk as [t Ht].
        exists "", t. split; [done|]. by left.
      * intros Hs. apply IH in Hs as (pre & post & -> & Hpre).
        exists (String a pre), post. split; [done|]. right.
        destruct Hpre as [[-> Ha]|(pre' & c & -> & Hc)].
        -- exists "", a. split; [done|].
           cbn [at_line_start Strict.fieldPattern multiline] in Ha.
           by apply andb_true_iff in Ha as [_ Ha].
        -- by exists (String a pre'), c.
    + intros (pre & post & Heq & Hpre).
      destruct Hpre as [[-> Hp]|(pre' & c & -> & Hc)].
      * simpl in Heq. rewrite Hp, (proj2 (prefix_iff _ _)) by eauto. done.
      * destruct (at_line_start _ prev && String.prefix (field +:+ ":") _);
          [done|].
        apply IH. destruct pre' as [|a' pre'].
        -- simpl in Heq. injection Heq as -> ->.
           exists "", post. split; [done|]. left. split; [done|].
           cbn [at_line_start Strict.fieldPattern multiline].
           by rewrite Hc.
        -- rewrite !sapp_cons in Heq. injection Heq as -> ->.
           exists (pre' +:+ String c ""), post. split; [done|].
           right. eauto.
Qed.

(** A field passes the test exactly when [field:] stands at the start of
    a line of the block. *)
Lemma test_fieldPattern field block :
  test (Strict.fieldPattern field) block = true ↔ line_prefix field block.
Proof.
  unfold test, exec, line_prefix.
  pose proof (search_fieldPattern field block None) as H.
  destruct (search _ _ _) as [r|].
  - split; [|done]. intros _.
    destruct (proj1 H) as (pre & post & -> & Hpre); [by eexists|].
    exists pre, post. split; [done|].
    destruct Hpre as [[-> _]|?]; auto.
  - split; [done|]. intros (pre & post & -> & Hpre).
    assert (is_Some (None : attempt)) as [? ?]; [|done].
    apply H. exists pre, post. split; [done|].
    destruct Hpre as [->|?]; auto.
Qed.

(** *** The delimiter pattern of the stricter Validator *)

Lemma star_lazy cs k prev grp s :
  star cs false k prev grp s
  = match k prev grp s with
    | Some r => Some r
    | None =>
        match s with
        | String a s' =>
            if in_set cs a then star cs false k (Some a) (push grp a) s'
            else None
        | "" => None
        end
    end.
Proof. by destruct s. Qed.

Lemma closing_spec prev grp s :
  closing prev grp s
  = if String.prefix (nl +:+ "---") s then Some grp else None.
Proof.
  unfold closing.
  change (run Strict.FRONTMATTER (lit (nl +:+ "---")) prev None grp s
          = if String.prefix (nl +:+ "---") s then Some grp else None).
  by rewrite run_lit, !canonical_plain.
Qed.

(** The lazy star stops at the first line feed followed by three
    hyphens. *)
Lemma star_closing_sound : ∀ s prev acc r,
  star AnyChar false closing prev (Some acc) s = Some r →
  ∃ mid tail, r = Some (acc +:+ mid) ∧ s = mid +:+ (nl +:+ "---") +:+ tail.
Proof.
  induction s as [|a s IH]; intros prev acc r; rewrite star_lazy, closing_spec.
  - destruct (String.prefix _ _) eqn:Hk; [|done]. by vm_compute in Hk.
  - destruct (String.prefix _ _) eqn:Hk.
    + intros [= <-]. apply prefix_iff in Hk as [tail ->].
      exists "", tail. by rewrite sapp_nil_r.
    + cbn [in_set push fmap option_fmap option_map]. intros Hs.
      apply IH in Hs as (mid & tail & -> & ->).
      exists (String a mid), tail. by rewrite sapp_assoc.
Qed.

Lemma star_closing_complete : ∀ mid tail prev acc,
  ∃ block,
    star AnyChar false closing prev (Some acc)
         (mid +:+ (nl +:+ "---") +:+ tail)
    = Some (Some block).
Proof.
  induction mid as [|a mid IH]; intros tail prev acc;
    rewrite star_lazy, closing_spec.
  - cbn [String.append]. rewrite prefix_app. eauto.
  - destruct (String.prefix _ _); [eauto|].
    rewrite sapp_cons. cbn [in_set push fmap option_fmap option_map].
    apply IH.
Qed.

Lemma search_FRONTMATTER_later : ∀ s a,
  search Strict.FRONTMATTER (Some a) s = None.
Proof. induction s as [|a' s IH]; intros a; [done|]. cbn. apply IH. Qed.

Lemma run_FRONTMATTER_open rest :
  run Strict.FRONTMATTER (source Strict.FRONTMATTER) None None None
      (("---" +:+ nl) +:+ rest)
  = star AnyChar false closing (Some LF) (Some "") rest.
Proof. reflexivity. Qed.

Lemma run_FRONTMATTER_closed content :
  String.prefix ("---" +:+ nl) content = false →
  run Strict.FRONTMATTER (source Strict.FRONTMATTER) None None None content
  = None.
Proof.
  intros Hp.
  change (source Strict.FRONTMATTER)
    with (Bol :: lit ("---" +:+ nl)
              ++ [Open; Star AnyChar false; Close; Lit LF] ++ lit "---").
  rewrite run_Bol. cbn [at_line_start].
  apply run_lit_app_fail. by rewrite !canonical_plain.
Qed.

(** The pattern matches exactly the contents that open with a block, and
    the group is the block up to the first closing delimiter. *)
Lemma extractFrontmatter_Some content block :
  Strict.extractFrontmatter content = Some block →
  ∃ tail, content = ("---" +:+ nl) +:+ block +:+ (nl +:+ "---") +:+ tail.
Proof.
  unfold Strict.extractFrontmatter, exec.
  destruct (String.prefix ("---" +:+ nl) content) eqn:Hp.
  - apply prefix_iff in Hp as [rest ->].
    rewrite search_unfold, run_FRONTMATTER_open.
    destruct (star _ _ _ _ _ _) as [r|] eqn:Hs.
    + apply star_closing_sound in Hs as (mid & tail & -> & ->).
      intros [= <-]. by exists tail.
    + cbn [String.append]. by rewrite search_FRONTMATTER_later.
  - rewrite search_unfold, run_FRONTMATTER_closed by done.
    destruct content as [|a content]; [done|].
    by rewrite search_FRONTMATTER_later.
Qed.

Lemma extractFrontmatter_None content :
  Strict.extractFrontmatter content = None ↔ ¬ has_frontmatter_block content.
Proof.
  split.
  - intros Hn (block & tail & ->).
    unfold Strict.extractFrontmatter, exec in Hn.
    destruct (star_closing_complete block tail (Some LF) "") as [b Hb].
    rewrite <- run_FRONTMATTER_open in Hb.
    rewrite search_unfold, Hb in Hn. done.
  - intros Hno. destruct (Strict.extractFrontmatter content) as [block|] eqn:He;
      [|done].
    apply extractFrontmatter_Some in He as [tail ->].
    destruct Hno. by exists block, tail.
Qed.

End regex.

(** ** Splitting *)
Section split.
#[local] Arguments String.append : simpl nomatch.
Implicit Types (s sep cur block tail : string).

Lemma split_from_skip sep : ∀ a cur s,
  Js.split_from sep (String.length a) cur (a +:+ s) = Js.split_from sep 0 cur s.
Proof. induction a as [|c a IH]; intros cur s; [done|]. apply IH. Qed.

Lemma split_from_sep sep cur s :
  sep ≠ "" →
  Js.split_from sep 0 cur (sep +:+ s) = cur :: Js.split_from sep 0 "" s.
Proof.
  destruct sep as [|c sep]; [done|]. intros _.
  rewrite sapp_cons. cbn [Js.split_from].
  rewrite <- sapp_cons, prefix_app. f_equal.
  cbn [String.length]. rewrite Nat.sub_succ, Nat.sub_0_r.
  apply split_from_skip.
Qed.

Lemma split_from_char sep cur c s :
  String.prefix sep (String c s) = false →
  Js.split_from sep 0 cur (String c s)
  = Js.split_from sep 0 (cur +:+ String c "") s.
Proof. intros Hp. cbn [Js.split_from]. by rewrite Hp. Qed.

(** Up to the first occurrence of the separator. *)
Lemma split_from_block sep : ∀ block cur tail,
  sep ≠ "" →
  clear_of sep (String.length block) (block +:+ sep +:+ tail) = true →
  Js.split_from sep 0 cur (block +:+ sep +:+ tail)
  = (cur +:+ block) :: Js.split_from sep 0 "" tail.
Proof.
  induction block as [|a block IH]; intros cur tail Hsep Hclear.
  - cbn [String.append]. rewrite sapp_nil_r. by apply split_from_sep.
  - rewrite sapp_cons in *. cbn [String.length clear_of] in Hclear.
    apply andb_true_iff in Hclear as [Hp Hclear].
    apply negb_true_iff in Hp.
    rewrite split_from_char by done. rewrite IH by done.
    by rewrite sapp_assoc.
Qed.

(** Without any occurrence of the separator. *)
Lemma split_from_none sep : ∀ s cur,
  Js.includes s sep = false → Js.split_from sep 0 cur s = [cur +:+ s].
Proof.
  induction s as [|a s IH]; intros cur Hi.
  - by rewrite sapp_nil_r.
  - rewrite includes_cons in Hi. apply orb_false_iff in Hi as [Hp Hi].
    rewrite split_from_char by done. rewrite IH by done.
    by rewrite sapp_assoc.
Qed.

Lemma split_from_head sep : ∀ s cur x l,
  Js.split_from sep 0 cur s = x :: l →
  (l = [] ∧ x = cur +:+ s)
  ∨ ∃ block tail, x = cur +:+ block ∧ s = block +:+ sep +:+ tail.
Proof.
  induction s as [|a s IH]; intros cur x l.
  - cbn. intros [= <- <-]. left. by rewrite sapp_nil_r.
  - destruct (String.prefix sep (String a s)) eqn:Hp.
    + cbn [Js.split_from]. rewrite Hp. intros [= <- _]. right.
      apply prefix_iff in Hp as [tail Ht].
      exists "", tail. by rewrite sapp_nil_r.
    + rewrite split_from_char by done. intros Hs.
      apply IH in Hs as [[-> ->]|(block & tail & -> & ->)].
      * left. by rewrite sapp_assoc.
      * right. exists (String a block), tail. by rewrite sapp_assoc.
Qed.

Lemma split_from_nonempty sep : ∀ s k cur,
  ∃ x l, Js.split_from sep k cur s = x :: l.
Proof.
  induction s as [|a s IH]; intros k cur; [by eexists _, _|].
  cbn [Js.split_from]. destruct k as [|k]; [|apply IH].
  destruct (String.prefix sep (String a s)); [by eexists _, _|apply IH].
Qed.

Lemma first_piece_block sep block tail :
  sep ≠ "" →
  clear_of sep (String.length block) (block +:+ sep +:+ tail) = true →
  first_piece (block +:+ sep +:+ tail) sep = block.
Proof.
  intros Hsep Hclear. unfold first_piece, Js.split.
  by rewrite split_from_block.
Qed.

Lemma first_piece_none sep s :
  Js.includes s sep = false → first_piece s sep = s.
Proof.
  intros Hi. unfold first_piece, Js.split. by rewrite split_from_none.
Qed.

(** The second element of the split of a string that starts with the
    separator. *)
Lemma split_second sep rest :
  sep ≠ "" → Js.split (sep +:+ rest) sep !! 1 = Some (first_piece rest sep).
Proof.
  intros Hsep. unfold first_piece, Js.split. rewrite split_from_sep by done.
  destruct (split_from_nonempty sep rest 0 "") as (x & l & ->). done.
Qed.

End split.

(** ** The patterns of the loose Validator that end in [\.md$] *)
Section suffix_patterns.
#[local] Arguments String.append : simpl nomatch.

Lemma run_lit_eol re w : ∀ prev cap s,
  multiline re = false →
  run re (lit w ++ [Eol]) prev None cap s
  = if String.eqb (canonical re w) (canonical re s) then Some cap else None.
Proof.
  induction w as [|c w IH]; intros prev cap s Hm.
  - destruct s as [|a s]; [done|].
    cbn [lit app run at_line_end]. by rewrite Hm.
  - destruct s as [|a s]; [done|].
    cbn [lit app run canonical push fmap option_fmap option_map String.eqb].
    unfold char_eq.
    destruct (N.eqb (canonicalize re c) (canonicalize re a)); [|done].
    by apply IH.
Qed.

Lemma search_lit_eol re w :
  source re = lit w ++ [Eol] → multiline re = false →
  ∀ s prev,
    search re prev s
    = if Js.endsWith (canonical re s) (canonical re w)
      then Some None else None.
Proof.
  intros Hsrc Hm. induction s as [|a s IH]; intros prev.
  - rewrite search_unfold, Hsrc, run_lit_eol, string_eqb_sym by done.
    cbn [canonical]. rewrite endsWith_nil. by destruct (String.eqb _ _).
  - rewrite search_unfold, Hsrc, run_lit_eol, string_eqb_sym by done.
    cbn [canonical]. rewrite endsWith_cons.
    destruct (String.eqb _ _); [done|]. apply IH.
Qed.

(** A pattern [/WORD\.md$/i] matches the names that end, in any case, in
    [WORD.md]. *)
Lemma test_suffix_ci w s :
  test (RegExp (lit w ++ [Eol]) true false) s
  = Js.endsWith (fold_case s) (fold_case w).
Proof.
  unfold test, exec. rewrite (search_lit_eol _ w) by done.
  rewrite !canonical_fold by done. by destruct (Js.endsWith _ _).
Qed.

(** Six of the eight patterns of the loose Validator are of this kind. *)
Lemma loose_junk_suffixes filename :
  existsb (λ p, test p filename) Loose.JUNK_PATTERNS
  = existsb (Js.endsWith (fold_case filename))
            ["SUMMARY.MD"; "COMPLETE.MD"; "FIXES.MD"; "STATUS.MD";
             "_AUDIT.MD"; "VERIFICATION.MD"]
    || test (RegExp (lit "SESSION" ++ [Star NotLineTerminator true;
                                       Lit "."%char] ++ lit "md" ++ [Eol])
                    true false) filename
    || test (RegExp (lit "PROMPT" ++ [Star NotLineTerminator true;
                                      Lit "."%char] ++ lit "md" ++ [Eol])
                    true false) filename.
Proof.
  unfold Loose.JUNK_PATTERNS. cbn [existsb].
  change (lit "SUMMARY" ++ [Lit "."%char] ++ lit "md" ++ [Eol])
    with (lit "SUMMARY.md" ++ [Eol]).
  change (lit "COMPLETE" ++ [Lit "."%char] ++ lit "md" ++ [Eol])
    with (lit "COMPLETE.md" ++ [Eol]).
  change (lit "FIXES" ++ [Lit "."%char] ++ lit "md" ++ [Eol])
    with (lit "FIXES.md" ++ [Eol]).
  change (lit "STATUS" ++ [Lit "."%char] ++ lit "md" ++ [Eol])
    with (lit "STATUS.md" ++ [Eol]).
  change (lit "_AUDIT" ++ [Lit "."%char] ++ lit "md" ++ [Eol])
    with (lit "_AUDIT.md" ++ [Eol]).
  change (lit "VERIFICATION" ++ [Lit "."%char] ++ lit "md" ++ [Eol])
    with (lit "VERIFICATION.md" ++ [Eol]).
  rewrite !test_suffix_ci.
  change (fold_case "SUMMARY.md") with "SUMMARY.MD".
  change (fold_case "COMPLETE.md") with "COMPLETE.MD".
  change (fold_case "FIXES.md") with "FIXES.MD".
  change (fold_case "STATUS.md") with "STATUS.MD".
  change (fold_case "_AUDIT.md") with "_AUDIT.MD".
  change (fold_case "VERIFICATION.md") with "VERIFICATION.MD".
  repeat (destruct (Js.endsWith _ _); [by rewrite ?orb_true_r|]).
  cbn [orb]. by rewrite orb_false_r.
Qed.

(** *** The patterns [/WORD.*\.md$/i] *)

Lemma is_Some_None {A} : is_Some (None : option A) ↔ False.
Proof. split; [by intros [? ?]|done]. Qed.

Lemma canonical_nil_inv re w : canonical re w = "" → w = "".
Proof. by destruct w. Qed.

(** Pattern characters before terms that do not look behind. *)
Lemma run_lit_then re w ts cap :
  (∀ p p' s, run re ts p None cap s = run re ts p' None cap s) →
  ∀ prev s,
    is_Some (run re (lit w ++ ts) prev None cap s)
    ↔ ∃ w' rest, s = w' +:+ rest
                 ∧ canonical re w' = canonical re w
                 ∧ is_Some (run re ts None None cap rest).
Proof.
  intros Hind. induction w as [|c w IH]; intros prev s.
  - cbn [lit app]. rewrite (Hind prev None). split.
    + intros Hs. by exists "", s.
    + intros (w' & rest & -> & Hw & Hs).
      apply canonical_nil_inv in Hw as ->. done.
  - destruct s as [|a s].
    + cbn [lit app run]. rewrite is_Some_None. split; [done|].
      intros (w' & rest & Heq & Hw & _). by destruct w'.
    + cbn [lit app run push fmap option_fmap option_map]. unfold char_eq.
      destruct (N.eqb_spec (canonicalize re c) (canonicalize re a))
        as [Hc|Hc].
      * rewrite IH. split.
        -- intros (w' & rest & -> & Hw & Hs).
           exists (String a w'), rest. cbn [canonical]. by rewrite Hc, Hw.
        -- intros (w' & rest & Heq & Hw & Hs).
           destruct w' as [|a' w']; [done|].
           cbn [canonical] in Hw. rewrite sapp_cons in Heq.
           injection Heq as <- ->. injection Hw as _ Hw. eauto.
      * rewrite is_Some_None. split; [done|].
        intros (w' & rest & Heq & Hw & _).
        destruct w' as [|a' w']; [done|].
        cbn [canonical] in Hw. rewrite sapp_cons in Heq.
        injection Heq as <- ->. injection Hw as Hw _. by destruct Hc.
Qed.

Lemma star_prev cs greedy k :
  (∀ p p' s, k p None s = k p' None s) →
  ∀ s p p', star cs greedy k p None s = star cs greedy k p' None s.
Proof.
  intros Hind. destruct s as [|a s]; intros p p'; cbn [star];
    by rewrite (Hind p p').
Qed.

(** The greedy star succeeds when some split of the input into code units
    of the class and a rest accepted by the continuation exists. *)
Lemma star_greedy_some cs k :
  (∀ p p' s, k p None s = k p' None s) →
  ∀ s prev,
    is_Some (star cs true k prev None s)
    ↔ ∃ mid ext, s = mid +:+ ext
                 ∧ all_in cs mid = true
                 ∧ is_Some (k None None ext).
Proof.
  intros Hind. induction s as [|a s IH]; intros prev.
  - cbn [star]. rewrite (Hind prev None). split.
    + intros Hs. by exists "", "".
    + intros (mid & ext & Heq & _ & Hs).
      destruct mid; [|done]. cbn [String.append] in Heq. by subst ext.
  - cbn [star push fmap option_fmap option_map]. split.
    + destruct (in_set cs a) eqn:Ha.
      * destruct (star cs true k (Some a) None s) as [r|] eqn:Hstar.
        -- intros _.
           destruct (proj1 (IH (Some a))) as (mid & ext & -> & Hmid & Hs).
           { by rewrite Hstar. }
           exists (String a mid), ext. cbn. by rewrite Ha, Hmid.
        -- rewrite (Hind prev None). intros Hs. by exists "", (String a s).
      * rewrite (Hind prev None). intros Hs. by exists "", (String a s).
    + intros (mid & ext & Heq & Hmid & Hs).
      destruct mid as [|a' mid].
      * cbn [String.append] in Heq. subst ext.
        rewrite (Hind prev None).
        by destruct (if in_set cs a then _ else _).
      * rewrite sapp_cons in Heq. injection Heq as <- ->.
        cbn in Hmid. apply andb_true_iff in Hmid as [Ha Hmid].
        rewrite Ha.
        destruct (proj2 (IH (Some a))) as [r ->]; [|done]. eauto.
Qed.

(** Searching with terms that do not look behind. *)
Lemma search_some re :
  (∀ p p' s, run re (source re) p None None s
             = run re (source re) p' None None s) →
  ∀ s prev,
    is_Some (search re prev s)
    ↔ ∃ pre rest, s = pre +:+ rest
                  ∧ is_Some (run re (source re) None None None rest).
Proof.
  intros Hind. induction s as [|a s IH]; intros prev;
    rewrite search_unfold, (Hind prev None).
  - split.
    + destruct (run _ _ _ _ _ _) eqn:Hrun; [|by rewrite is_Some_None].
      intros _. exists "", "". by rewrite Hrun.
    + intros (pre & rest & Heq & Hs). destruct pre; [|done].
      cbn [String.append] in Heq. subst rest. by destruct (run _ _ _ _ _ _).
  - split.
    + destruct (run _ _ _ _ _ _) eqn:Hrun.
      * intros _. exists "", (String a s). by rewrite Hrun.
      * intros Hs. apply IH in Hs as (pre & rest & -> & Hs).
        by exists (String a pre), rest.
    + intros (pre & rest & Heq & Hs). destruct pre as [|a' pre].
      * cbn [String.append] in Heq. subst rest.
        by destruct (run _ _ _ _ _ _).
      * rewrite sapp_cons in Heq. injection Heq as <- ->.
        destruct (run re (source re) None None None (String a _));
          [by eexists|].
        apply IH. eauto.
Qed.

Lemma test_is_Some re s : test re s = true ↔ is_Some (exec re s).
Proof.
  unfold test. destruct (exec re s); [|by rewrite is_Some_None].
  split; [by eexists|done].
Qed.

Lemma run_lit_prev re w ts cap :
  (∀ p p' s, run re ts p None cap s = run re ts p' None cap s) →
  ∀ p p' s, run re (lit w ++ ts) p None cap s
            = run re (lit w ++ ts) p' None cap s.
Proof.
  intros Hind p p' s. destruct w as [|c w]; [apply Hind|].
  by destruct s.
Qed.

(** A pattern [/WORD.*\.md$/i]. *)
Lemma test_word_then_md word s :
  test (RegExp (lit word ++ [Star NotLineTerminator true; Lit "."%char]
                         ++ lit "md" ++ [Eol]) true false) s = true
  ↔ word_then_md word s.
Proof.
  set (re := RegExp _ true false).
  set (k := λ (prev : option codeunit) (grp : option string) (s : string),
              run re (lit ".md" ++ [Eol]) prev grp None s).
  assert (∀ p s, k p None s
                 = if String.eqb ".MD" (fold_case s)
                   then Some None else None) as Hk.
  { intros p s'. unfold k. rewrite run_lit_eol by done.
    by rewrite !canonical_fold. }
  assert (∀ p p' s, k p None s = k p' None s) as Hkind.
  { intros p p' s'. by rewrite !Hk. }
  assert (∀ p p' s,
            run re (Star NotLineTerminator true :: lit ".md" ++ [Eol])
                p None None s
            = run re (Star NotLineTerminator true :: lit ".md" ++ [Eol])
                  p' None None s) as Htail.
  { intros p p' s'. apply (star_prev _ _ k Hkind). }
  rewrite test_is_Some. unfold exec.
  rewrite search_some by apply (run_lit_prev re word _ None Htail).
  unfold word_then_md. split.
  - intros (pre & rest & -> & Hrun).
    apply (run_lit_then re word _ None Htail) in Hrun
      as (w & rest' & -> & Hw & Hrun).
    apply (star_greedy_some _ k Hkind) in Hrun as (mid & ext & -> & Hmid & Hext).
    rewrite Hk in Hext. exists pre, w, mid, ext.
    rewrite !canonical_fold in Hw by done. split_and!; [done..|].
    destruct (string_eqb_spec ".MD" (fold_case ext)) as [<-|];
      [done|by apply is_Some_None in Hext].
  - intros (pre & w & mid & ext & -> & Hw & Hmid & Hext).
    exists pre, (w +:+ mid +:+ ext). split; [done|].
    apply (run_lit_then re word _ None Htail).
    exists w, (mid +:+ ext). rewrite !canonical_fold by done.
    split_and!; [done..|].
    apply (star_greedy_some _ k Hkind). exists mid, ext.
    split_and!; [done..|]. rewrite Hk, Hext. by eexists.
Qed.

(** The names that earn an error in the loose Validator. *)
Lemma loose_junk_blocked filename :
  existsb (λ p, test p filename) Loose.JUNK_PATTERNS = true
  ↔ loose_blocked filename.
Proof.
  rewrite loose_junk_suffixes, !orb_true_iff, !test_word_then_md.
  unfold loose_blocked, LOOSE_SUFFIXES. tauto.
Qed.

End suffix_patterns.

(** ** Checking one file *)
Section validateFile.
#[local] Arguments String.append : simpl nomatch.
Implicit Types (content block rest : string).

(** *** The loose Validator *)

Lemma loose_check_fields block errors :
  Loose.check_fields block errors
  = errors ++ (if Js.includes block "title:" then []
               else [Loose.field_message "title"]).
Proof.
  unfold Loose.check_fields. cbn [foldl Loose.REQUIRED_FRONTMATTER].
  change ("title" +:+ ":") with "title:".
  destruct (Js.includes block "title:"); simpl; [by rewrite app_nil_r|done].
Qed.

(** Content that does not start with three hyphens: no frontmatter
    check at all. *)
Lemma loose_validateFile_plain path content :
  Js.startsWith content "---" = false →
  Loose.validateFile (Loose.MkFile path (Fs.File content))
  = Ok (loose_junk (basename path)).
Proof.
  intros Hs. unfold Loose.validateFile, loose_junk, basename.
  cbn [Loose.path Loose.target Fs.readFileSync mbind result_bind].
  rewrite Hs. by destruct (existsb _ _).
Qed.

(** Content that starts with three hyphens: the fields are looked for in
    the text up to the next three hyphens. *)
Lemma loose_validateFile_open path rest :
  Loose.validateFile (Loose.MkFile path (Fs.File ("---" +:+ rest)))
  = Ok (Loose.check_fields (first_piece rest "---")
                           (loose_junk (basename path))).
Proof.
  unfold Loose.validateFile, loose_junk, basename.
  cbn [Loose.path Loose.target Fs.readFileSync mbind result_bind].
  unfold Js.startsWith. rewrite prefix_app, split_second by done.
  by destruct (existsb _ _).
Qed.

(** A regular file is always checked to the end. *)
Lemma loose_validateFile_total path content :
  ∃ errors,
    Loose.validateFile (Loose.MkFile path (Fs.File content)) = Ok errors.
Proof.
  destruct (Js.startsWith content "---") eqn:Hs.
  - apply startsWith_iff in Hs as [rest ->].
    rewrite loose_validateFile_open. eauto.
  - rewrite loose_validateFile_plain by done. eauto.
Qed.

(** *** The stricter Validator *)

Lemma strict_check_fields block errors :
  Strict.check_fields block errors
  = errors
    ++ (if test (Strict.fieldPattern "title") block then []
        else [Strict.field_message "title"])
    ++ (if test (Strict.fieldPattern "description") block then []
        else [Strict.field_message "description"]).
Proof.
  unfold Strict.check_fields. cbn [foldl Strict.REQUIRED_FRONTMATTER].
  destruct (test (Strict.fieldPattern "title") block),
    (test (Strict.fieldPattern "description") block); simpl;
    by rewrite ?app_nil_r, <- ?(assoc_L (++)).
Qed.

Lemma strict_validateFile_missing full rel content :
  Strict.falsy (Strict.extractFrontmatter content) = true →
  Strict.validateFile (Strict.MkFile full rel (Fs.File content))
  = Ok (strict_junk (basename rel) ++ ["Missing frontmatter block"]).
Proof.
  intros Hf. unfold Strict.validateFile, strict_junk, basename.
  cbn [Strict.relPath Strict.target Fs.readFileSync mbind result_bind].
  rewrite Hf. by destruct (existsb _ _).
Qed.

Lemma strict_validateFile_block full rel content block :
  Strict.extractFrontmatter content = Some block →
  block ≠ "" →
  Strict.validateFile (Strict.MkFile full rel (Fs.File content))
  = Ok (Strict.check_fields block (strict_junk (basename rel))).
Proof.
  intros He Hb. unfold Strict.validateFile, strict_junk, basename.
  cbn [Strict.relPath Strict.target Fs.readFileSync mbind result_bind].
  rewrite He. cbn [Strict.falsy default].
  rewrite (proj2 (string_eqb_neq _ _)) by done.
  by destruct (existsb _ _).
Qed.

Lemma strict_validateFile_total full rel content :
  ∃ errors,
    Strict.validateFile (Strict.MkFile full rel (Fs.File content))
    = Ok errors.
Proof.
  destruct (Strict.extractFrontmatter content) as [block|] eqn:He.
  - destruct (decide (block = "")) as [->|Hb].
    + rewrite strict_validateFile_missing by by rewrite He. eauto.
    + erewrite strict_validateFile_block by done. eauto.
  - rewrite strict_validateFile_missing by by rewrite He. eauto.
Qed.

(** *** Errors about the file name *)

Lemma junk_message_is_junk filename :
  is_junk_error ("Junk doc detected: " +:+ filename) = true.
Proof. apply prefix_app. Qed.

Lemma strict_junk_words filename :
  existsb (λ p, test p filename) Strict.JUNK_PATTERNS
  = existsb (λ word, Js.includes (fold_case filename) word) JUNK_WORDS.
Proof.
  unfold Strict.JUNK_PATTERNS, JUNK_WORDS. cbn [existsb].
  by rewrite !test_lit_ci.
Qed.

End validateFile.

(** A line separator (U+2028) is a line terminator: a field after it
    stands at the start of a line of the block, and a name with it after
    SESSION is none that goes on without a line break to [.md]. *)
Lemma line_separator_starts_a_line :
  let block := "description: d" +:+ String LS "title: t" in
  line_prefix "title" block
  ∧ Strict.validateFile
      (Strict.MkFile "guide/intro.md" "guide/intro.md"
         (Fs.File ("---" +:+ nl +:+ block +:+ nl +:+ "---")))
    = Ok [].
Proof.
  intros block. split; [|by vm_compute].
  apply test_fieldPattern. by vm_compute.
Qed.

Lemma line_separator_ends_a_name :
  let name := "SESSION" +:+ String LS "notes.md" in
  ¬ loose_blocked name
  ∧ Loose.validateFile (Loose.MkFile ("guide/" +:+ name) (Fs.File "x"))
    = Ok [].
Proof.
  intros name. split; [|by vm_compute].
  rewrite <- loose_junk_blocked. by vm_compute.
Qed.

(** C1 (as stated, refuted).  The loose Validator checks a file without
    any frontmatter and reports nothing. *)
Lemma loose_accepts_missing_frontmatter :
  ¬ has_frontmatter_block "# Intro"
  ∧ Loose.validateFile (Loose.MkFile "guide/intro.md" (Fs.File "# Intro"))
    = Ok [].
Proof.
  split; [|by vm_compute].
  apply extractFrontmatter_None. by vm_compute.
Qed.

(** C1 (amended).  In the stricter Validator a file whose content does not
    open with a block gets, after the error its name may earn, the single
    error [Missing frontmatter block], and no error about a field.  In the
    loose Validator a file whose content does not start with three hyphens
    gets no error about frontmatter at all, and no field is looked for. *)
Theorem missing_frontmatter_block :
  (∀ full rel content,
     ¬ has_frontmatter_block content →
     Strict.validateFile (Strict.MkFile full rel (Fs.File content))
     = Ok (strict_junk (basename rel) ++ ["Missing frontmatter block"]))
  ∧ (∀ path content,
       Js.startsWith content "---" = false →
       Loose.validateFile (Loose.MkFile path (Fs.File content))
       = Ok (loose_junk (basename path))).
Proof.
  split.
  - intros full rel content Hno. apply strict_validateFile_missing.
    apply extractFrontmatter_None in Hno. by rewrite Hno.
  - apply loose_validateFile_plain.
Qed.

Lemma missing_frontmatter_block_witness :
  ¬ has_frontmatter_block "# Intro"
  ∧ Strict.validateFile
      (Strict.MkFile "guide/intro.md" "guide/intro.md" (Fs.File "# Intro"))
    = Ok ["Missing frontmatter block"]
  ∧ Js.startsWith "# Intro" "---" = false
  ∧ Loose.validateFile (Loose.MkFile "guide/intro.md" (Fs.File "# Intro"))
    = Ok [].
Proof.
  assert (¬ has_frontmatter_block "# Intro") as Hno.
  { apply extractFrontmatter_None. by vm_compute. }
  split; [exact Hno|]. split.
  - exact (proj1 missing_frontmatter_block
             "guide/intro.md" "guide/intro.md" "# Intro" Hno).
  - split; [reflexivity|].
    exact (proj2 missing_frontmatter_block "guide/intro.md" "# Intro"
             eq_refl).
Defined.

(** A list of errors with, after the error of the name, only errors about
    frontmatter. *)
Lemma filter_junk_message filename (rest : list string) :
  Forall (λ e, is_junk_error e = false) rest →
  filter (λ e, is_junk_error e) (["Junk doc detected: " +:+ filename] ++ rest)
  = ["Junk doc detected: " +:+ filename].
Proof.
  intros Hrest. rewrite filter_app, filter_cons, filter_nil.
  rewrite decide_True by (by rewrite junk_message_is_junk).
  assert (filter (λ e, is_junk_error e) rest = []) as ->; [|done].
  induction Hrest as [|e rest He _ IH]; [done|].
  rewrite filter_cons_False; [exact IH|]. rewrite He. by intros [].
Qed.

Lemma strict_errors_of_junk_name full rel content :
  existsb (λ p, test p (basename rel)) Strict.JUNK_PATTERNS = true →
  ∃ errors,
    Strict.validateFile (Strict.MkFile full rel (Fs.File content)) = Ok errors
    ∧ filter (λ e, is_junk_error e) errors
      = ["Junk doc detected: " +:+ basename rel].
Proof.
  intros Hj.
  assert (strict_junk (basename rel)
          = ["Junk doc detected: " +:+ basename rel]) as Hjunk.
  { unfold strict_junk. by rewrite Hj. }
  destruct (Strict.extractFrontmatter content) as [block|] eqn:He;
    [destruct (decide (block = "")) as [->|Hb]|].
  - rewrite strict_validateFile_missing, Hjunk by by rewrite He.
    eexists. split; [done|]. apply filter_junk_message. by repeat constructor.
  - erewrite strict_validateFile_block, strict_check_fields, Hjunk by done.
    eexists. split; [done|]. apply filter_junk_message.
    destruct (test _ block), (test _ block); by repeat constructor.
  - rewrite strict_validateFile_missing, Hjunk by by rewrite He.
    eexists. split; [done|]. apply filter_junk_message. by repeat constructor.
Qed.

Lemma loose_errors_of_junk_name path content :
  existsb (λ p, test p (basename path)) Loose.JUNK_PATTERNS = true →
  ∃ errors,
    Loose.validateFile (Loose.MkFile path (Fs.File content)) = Ok errors
    ∧ filter (λ e, is_junk_error e) errors
      = ["Junk doc detected: " +:+ basename path].
Proof.
  intros Hj.
  assert (loose_junk (basename path)
          = ["Junk doc detected: " +:+ basename path]) as Hjunk.
  { unfold loose_junk. by rewrite Hj. }
  destruct (Js.startsWith content "---") eqn:Hs.
  - apply startsWith_iff in Hs as [rest ->].
    rewrite loose_validateFile_open, loose_check_fields, Hjunk.
    eexists. split; [done|]. apply filter_junk_message.
    destruct (Js.includes _ _); by repeat constructor.
  - rewrite loose_validateFile_plain, Hjunk by done.
    eexists. split; [done|].
    rewrite <- (app_nil_r [_]). by apply filter_junk_message.
Qed.

(** C3 (as stated, refuted).  The name [STATUS_REPORT.md] contains the
    blocked word STATUS, and the loose Validator, whose patterns are tied
    to the end of the name, reports no error for it. *)
Lemma loose_misses_word_inside_name :
  Js.includes (fold_case (basename "guide/STATUS_REPORT.md")) "STATUS"
  = true
  ∧ Loose.validateFile
      (Loose.MkFile "guide/STATUS_REPORT.md"
         (Fs.File ("---" +:+ nl +:+ "title: Report" +:+ nl +:+ "---" +:+ nl)))
    = Ok [].
Proof. split; by vm_compute. Qed.

(** C3 (amended).  Whatever the content of the file: in the stricter
    Validator a name that contains one of the eight blocked words, in any
    case and anywhere, earns exactly one error about the name; in the loose
    Validator a name does so when it ends, in any case, in one of
    [SUMMARY.md], [COMPLETE.md], [FIXES.md], [STATUS.md], [_AUDIT.md],
    [VERIFICATION.md], or holds SESSION or PROMPT followed, without a line
    break, by a final [.md]. *)
Theorem one_junk_error_per_file :
  (∀ full rel content word,
     word ∈ JUNK_WORDS →
     Js.includes (fold_case (basename rel)) word = true →
     ∃ errors,
       Strict.validateFile (Strict.MkFile full rel (Fs.File content))
       = Ok errors
       ∧ filter (λ e, is_junk_error e) errors
         = ["Junk doc detected: " +:+ basename rel])
  ∧ (∀ path content,
       loose_blocked (basename path) →
       ∃ errors,
         Loose.validateFile (Loose.MkFile path (Fs.File content)) = Ok errors
         ∧ filter (λ e, is_junk_error e) errors
           = ["Junk doc detected: " +:+ basename path]).
Proof.
  split.
  - intros full rel content word Hw Hin.
    apply strict_errors_of_junk_name. rewrite strict_junk_words.
    apply existsb_exists. exists word. split; [|done].
    by apply list_elem_of_In.
  - intros path content Hb. apply loose_errors_of_junk_name.
    by apply loose_junk_blocked.
Qed.

Lemma one_junk_error_per_file_witness :
  (∃ errors,
     Strict.validateFile
       (Strict.MkFile "guide/session_notes.md" "guide/session_notes.md"
          (Fs.File "hello")) = Ok errors
     ∧ filter (λ e, is_junk_error e) errors
       = ["Junk doc detected: session_notes.md"])
  ∧ (∃ errors,
       Loose.validateFile
         (Loose.MkFile "guide/SESSION_NOTES.md" (Fs.File "hello")) = Ok errors
       ∧ filter (λ e, is_junk_error e) errors
         = ["Junk doc detected: SESSION_NOTES.md"]).
Proof.
  split.
  - apply (proj1 one_junk_error_per_file
             "guide/session_notes.md" "guide/session_notes.md" "hello"
             "SESSION").
    + apply (bool_decide_unpack _). by vm_compute.
    + by vm_compute.
  - apply (proj2 one_junk_error_per_file "guide/SESSION_NOTES.md" "hello").
    right. left. exists "", "SESSION", "_NOTES", ".md".
    split_and!; reflexivity.
Defined.

(** C4 (as stated, refuted).  In the loose Validator the key [subtitle]
    passes for the required field [title], which stands at the start of
    no line of the block. *)
Lemma loose_accepts_field_inside_key :
  ¬ line_prefix "title" (nl +:+ "subtitle: Draft" +:+ nl)
  ∧ Loose.validateFile
      (Loose.MkFile "guide/intro.md"
         (Fs.File ("---" +:+ nl +:+ "subtitle: Draft" +:+ nl +:+ "---" +:+ nl)))
    = Ok [].
Proof.
  split; [|by vm_compute].
  rewrite <- test_fieldPattern. by vm_compute.
Qed.

(** C4 (amended).  In the stricter Validator, for a file whose extracted
    block is not empty, a required field is accepted exactly when
    [field:] stands at the start of a line of the block, and the errors
    are, after the error of the name, one error for each of [title] and
    [description] that is not accepted.  In the loose Validator, for a
    file that starts with three hyphens, [title] is accepted exactly when
    [title:] occurs somewhere in the text up to the next three hyphens. *)
Theorem required_fields_checked :
  (∀ full rel content block,
     Strict.extractFrontmatter content = Some block →
     block ≠ "" →
     Strict.validateFile (Strict.MkFile full rel (Fs.File content))
     = Ok (strict_junk (basename rel)
           ++ (if test (Strict.fieldPattern "title") block then []
               else ["Missing frontmatter: title"])
           ++ (if test (Strict.fieldPattern "description") block then []
               else ["Missing frontmatter: description"]))
     ∧ ∀ field,
         field ∈ Strict.REQUIRED_FRONTMATTER →
         test (Strict.fieldPattern field) block = true
         ↔ line_prefix field block)
  ∧ (∀ path rest,
       let block := first_piece rest "---" in
       Loose.validateFile (Loose.MkFile path (Fs.File ("---" +:+ rest)))
       = Ok (loose_junk (basename path)
             ++ (if Js.includes block "title:" then []
                 else ["Missing frontmatter: title"]))
       ∧ (Js.includes block "title:" = true
          ↔ ∃ before after, block = before +:+ "title:" +:+ after)).
Proof.
  split.
  - intros full rel content block He Hb. split.
    + erewrite strict_validateFile_block by done.
      by rewrite strict_check_fields.
    + intros field _. apply test_fieldPattern.
  - intros path rest block. split.
    + by rewrite loose_validateFile_open, loose_check_fields.
    + apply includes_iff.
Qed.

Lemma required_fields_checked_witness :
  let content :=
    "---" +:+ nl +:+ "subtitle: Draft" +:+ nl +:+ "description: A draft"
          +:+ nl +:+ "---" +:+ nl in
  let separated :=
    "---" +:+ nl +:+ "description: A draft" +:+ String LS "title: Draft"
          +:+ nl +:+ "---" +:+ nl in
  Strict.extractFrontmatter content
  = Some ("subtitle: Draft" +:+ nl +:+ "description: A draft")
  ∧ Strict.validateFile
      (Strict.MkFile "guide/intro.md" "guide/intro.md" (Fs.File content))
    = Ok ["Missing frontmatter: title"]
  ∧ Strict.validateFile
      (Strict.MkFile "guide/intro.md" "guide/intro.md" (Fs.File separated))
    = Ok []
  ∧ Loose.validateFile (Loose.MkFile "guide/intro.md" (Fs.File content))
    = Ok [].
Proof.
  intros content separated.
  assert (Strict.extractFrontmatter content
          = Some ("subtitle: Draft" +:+ nl +:+ "description: A draft"))
    as He by (by vm_compute).
  assert (Strict.extractFrontmatter separated
          = Some ("description: A draft" +:+ String LS "title: Draft"))
    as He' by (by vm_compute).
  split; [exact He|]. split_and!.
  - refine (proj1 (proj1 required_fields_checked
                     "guide/intro.md" "guide/intro.md" content _ He _)).
    by vm_compute.
  - refine (proj1 (proj1 required_fields_checked
                     "guide/intro.md" "guide/intro.md" separated _ He' _)).
    by vm_compute.
  - exact (proj1 (proj2 required_fields_checked "guide/intro.md"
                    (nl +:+ "subtitle: Draft" +:+ nl +:+ "description: A draft"
                        +:+ nl +:+ "---" +:+ nl))).
Defined.

(** C5 (as stated, refuted).  The stricter Validator does not take
    [---\n---\ncontent] for a file with a block: its pattern asks for a
    line feed before the closing hyphens.  It reports the block as
    missing and says nothing of [title]. *)
Lemma strict_reports_empty_block_missing :
  existsb (λ p, test p (basename "guide/intro.md")) Strict.JUNK_PATTERNS
  = false
  ∧ Strict.validateFile
      (Strict.MkFile "guide/intro.md" "guide/intro.md"
         (Fs.File ("---" +:+ nl +:+ "---" +:+ nl +:+ "content")))
    = Ok ["Missing frontmatter block"]
  ∧ "Missing frontmatter: title" ∉ ["Missing frontmatter block"].
Proof.
  split_and!; [by vm_compute..|]. by apply (bool_decide_unpack _).
Qed.

(** C5 (amended).  For the content [---\n---\ncontent] under a clean
    name, the loose Validator reports [Missing frontmatter: title] and
    nothing else; the stricter Validator reports
    [Missing frontmatter block] and nothing else. *)
Theorem empty_frontmatter_block :
  let content := "---" +:+ nl +:+ "---" +:+ nl +:+ "content" in
  (∀ path,
     existsb (λ p, test p (basename path)) Loose.JUNK_PATTERNS = false →
     Loose.validateFile (Loose.MkFile path (Fs.File content))
     = Ok ["Missing frontmatter: title"])
  ∧ (∀ full rel,
       existsb (λ p, test p (basename rel)) Strict.JUNK_PATTERNS = false →
       Strict.validateFile (Strict.MkFile full rel (Fs.File content))
       = Ok ["Missing frontmatter block"]).
Proof.
  intros content. split.
  - intros path Hclean.
    change content with ("---" +:+ (nl +:+ "---" +:+ nl +:+ "content")).
    rewrite loose_validateFile_open, loose_check_fields.
    unfold loose_junk. rewrite Hclean. by vm_compute.
  - intros full rel Hclean.
    rewrite strict_validateFile_missing by by vm_compute.
    unfold strict_junk. by rewrite Hclean.
Qed.

Lemma empty_frontmatter_block_witness :
  let content := "---" +:+ nl +:+ "---" +:+ nl +:+ "content" in
  Loose.validateFile (Loose.MkFile "guide/intro.md" (Fs.File content))
  = Ok ["Missing frontmatter: title"]
  ∧ Strict.validateFile
      (Strict.MkFile "guide/intro.md" "guide/intro.md" (Fs.File content))
    = Ok ["Missing frontmatter block"].
Proof.
  intros content. split.
  - apply (proj1 empty_frontmatter_block "guide/intro.md"). by vm_compute.
  - apply (proj2 empty_frontmatter_block "guide/intro.md" "guide/intro.md").
    by vm_compute.
Defined.

(** C10.  In the loose Validator, for a file whose content starts with
    three hyphens, the fields are looked for in the text between these and
    the next three hyphens, wherever on a line they stand; when no other
    three hyphens follow, they are looked for in all the rest of the file,
    no error tells of the open block, and [title:] anywhere in the rest
    leaves no error about frontmatter. *)
Theorem loose_block_between_hyphens (path rest : string) :
  let checked := Loose.validateFile
                   (Loose.MkFile path (Fs.File ("---" +:+ rest))) in
  (∀ block tail,
     rest = block +:+ "---" +:+ tail →
     clear_of "---" (String.length block) rest = true →
     checked
     = Ok (loose_junk (basename path)
           ++ (if Js.includes block "title:" then []
               else ["Missing frontmatter: title"])))
  ∧ (Js.includes rest "---" = false →
     checked
     = Ok (loose_junk (basename path)
           ++ (if Js.includes rest "title:" then []
               else ["Missing frontmatter: title"]))
     ∧ (Js.includes rest "title:" = true →
        checked = Ok (loose_junk (basename path)))).
Proof.
  intros checked. unfold checked.
  rewrite loose_validateFile_open, loose_check_fields. split.
  - intros block tail -> Hclear. by rewrite first_piece_block.
  - intros Hnone. rewrite first_piece_none by done. split; [done|].
    intros ->. by rewrite app_nil_r.
Qed.

Lemma loose_block_between_hyphens_witness :
  Loose.validateFile
    (Loose.MkFile "guide/intro.md"
       (Fs.File ("---" +:+ "draft --- title: none" +:+ nl)))
  = Ok ["Missing frontmatter: title"]
  ∧ Loose.validateFile
      (Loose.MkFile "guide/intro.md"
         (Fs.File ("---" +:+ nl +:+ "# Heading" +:+ nl +:+ "title: body text")))
    = Ok [].
Proof.
  split.
  - apply (proj1 (loose_block_between_hyphens "guide/intro.md"
                    ("draft --- title: none" +:+ nl))
             "draft " (" title: none" +:+ nl)); reflexivity.
  - apply (proj2 (loose_block_between_hyphens "guide/intro.md"
                    (nl +:+ "# Heading" +:+ nl +:+ "title: body text")));
      reflexivity.
Defined.

(** ** Traversal *)
Section traversal.
#[local] Arguments String.append : simpl nomatch.

Lemma node_induction (P : Fs.node → Prop) :
  (∀ content, P (Fs.File content)) →
  (∀ items, Forall (λ x, P x.2) items → P (Fs.Dir items)) →
  ∀ n, P n.
Proof.
  intros Hfile Hdir. fix IH 1. intros [content|items].
  - apply Hfile.
  - apply Hdir. revert items. fix IHitems 1.
    intros [|[item child] items]; constructor; [apply IH|apply IHitems].
Qed.

(** The traversal of the stricter Validator keeps, of the markdown files
    it comes across, those that pass the root filter. *)
Lemma strict_find_filter : ∀ d dir files,
  Strict.findMarkdownFiles dir d files
  = files ++ filter (λ e, Strict.shouldValidate (Strict.relPath e))
                    (strict_discovered dir d).
Proof.
  induction d as [content|items IH] using node_induction; intros dir files.
  - cbn. by rewrite app_nil_r.
  - cbn [Strict.findMarkdownFiles strict_discovered].
    revert files. induction IH as [|[item child] items Hchild _ IHitems];
      intros files.
    + by rewrite filter_nil, app_nil_r.
    + cbn [snd] in Hchild. rewrite filter_app.
      destruct (Fs.isDirectory child).
      * destruct (Strict.has Strict.IGNORE_DIRS item || Js.startsWith item ".").
        -- rewrite IHitems. by rewrite filter_nil.
        -- rewrite IHitems, Hchild. by rewrite (assoc_L (++)).
      * destruct (Js.endsWith item ".md").
        -- rewrite filter_cons, filter_nil. cbn [Strict.relPath].
           destruct (Strict.shouldValidate _).
           ++ rewrite decide_True by done. rewrite IHitems.
              by rewrite (assoc_L (++)).
           ++ rewrite decide_False by (by intros []). by rewrite IHitems.
        -- rewrite IHitems. by rewrite filter_nil.
Qed.

Lemma endsWith_join dir item p :
  Js.endsWith item p = true → Js.endsWith (Js.join dir item) p = true.
Proof.
  rewrite !endsWith_iff. intros [a ->]. unfold Js.join.
  destruct (String.eqb dir "."); [by exists a|].
  destruct (Js.endsWith dir "/").
  - exists (dir +:+ a). by rewrite sapp_assoc.
  - exists (dir +:+ "/" +:+ a). by rewrite !sapp_assoc.
Qed.

(** What the traversal comes across are regular files whose path ends in
    [.md]. *)
Lemma strict_discovered_files : ∀ d dir,
  Forall (λ e, ∃ content, Strict.target e = Fs.File content
                          ∧ Strict.fullPath e = Strict.relPath e
                          ∧ Js.endsWith (Strict.relPath e) ".md" = true)
         (strict_discovered dir d).
Proof.
  induction d as [content|items IH] using node_induction; intros dir.
  - constructor.
  - cbn [strict_discovered].
    induction IH as [|[item child] items Hchild _ IHitems]; [constructor|].
    cbn [snd] in Hchild. apply Forall_app. split; [|exact IHitems].
    destruct child as [content|sub]; cbn [Fs.isDirectory].
    + destruct (Js.endsWith item ".md") eqn:Hmd; [|constructor].
      repeat constructor. exists content. split_and!; [done..|].
      by apply endsWith_join.
    + destruct (Strict.has Strict.IGNORE_DIRS item || Js.startsWith item ".");
        [constructor|apply Hchild].
Qed.

Lemma strict_found_files root :
  Forall (λ e, ∃ content, Strict.target e = Fs.File content
                          ∧ Strict.shouldValidate (Strict.relPath e) = true
                          ∧ Js.endsWith (Strict.relPath e) ".md" = true)
         (Strict.findMarkdownFiles "." (Fs.Dir root) []).
Proof.
  rewrite strict_find_filter, app_nil_l. apply Forall_forall. intros e He.
  apply list_elem_of_filter in He as [Hs He].
  pose proof (strict_discovered_files (Fs.Dir root) ".") as Hd.
  rewrite Forall_forall in Hd.
  destruct (Hd e He) as (content & Ht & _ & Hmd).
  exists content. split_and!; [done| |done].
  by destruct (Strict.shouldValidate _).
Qed.

(** The root filter lets through exactly the markdown paths under
    [guide/], [api/] and [components/], and [index.md]. *)
Lemma shouldValidate_allowed p :
  Js.endsWith p ".md" = true →
  Strict.shouldValidate p = true ↔ allowed_path p.
Proof.
  intros Hmd. unfold Strict.shouldValidate, allowed_path, Js.sep, Js.split.
  destruct (split_from_nonempty "/" p 0 "") as (x & l & Hsplit).
  rewrite Hsplit. cbn [head default from_option id].
  pose proof (split_from_head "/" p "" x l Hsplit) as Hhead.
  cbn [String.append] in Hhead.
  unfold Strict.has. split.
  - destruct (bool_decide (x ∈ Strict.VALIDATION_ROOTS)) eqn:Hroot.
    + intros _. apply bool_decide_eq_true in Hroot.
      destruct Hhead as [[_ ->]|(block & tail & -> & ->)].
      * exfalso. unfold Strict.VALIDATION_ROOTS in Hroot.
        rewrite !elem_of_union, !elem_of_singleton in Hroot.
        destruct Hroot as [[->| ->]| ->]; by vm_compute in Hmd.
      * left. by exists block, tail.
    + intros Heq. right. by apply string_eqb_eq.
  - intros [(root & rest & Hroot & ->)| ->];
      [|by destruct (bool_decide _)].
    assert (x = root) as ->; [|by rewrite bool_decide_eq_true_2].
    assert (clear_of "/" (String.length root) (root +:+ "/" +:+ rest) = true)
      as Hclear.
    { unfold Strict.VALIDATION_ROOTS in Hroot.
      rewrite !elem_of_union, !elem_of_singleton in Hroot.
      destruct Hroot as [[->| ->]| ->]; reflexivity. }
    rewrite split_from_block in Hsplit by done. by injection Hsplit as <- _.
Qed.

(** One iteration of the loop of the loose traversal. *)
Lemma loose_find_cons dir item child rest files :
  Loose.findMarkdownFiles dir (Fs.Dir ((item, child) :: rest)) files
  = Loose.findMarkdownFiles dir (Fs.Dir rest)
      (if Fs.isDirectory child && negb (Js.startsWith item ".")
       then Loose.findMarkdownFiles (Js.join dir item) child files
       else if Js.endsWith item ".md"
       then files ++ [Loose.MkFile (Js.join dir item) child]
       else files).
Proof.
  cbn [Loose.findMarkdownFiles].
  by destruct (Fs.isDirectory child && negb (Js.startsWith item ".")),
    (Js.endsWith item ".md").
Qed.

Lemma loose_find_extends : ∀ d dir files,
  ∃ added, Loose.findMarkdownFiles dir d files = files ++ added.
Proof.
  induction d as [content|items IH] using node_induction; intros dir files.
  - exists []. by rewrite app_nil_r.
  - revert files. induction IH as [|[item child] items Hchild _ IHitems];
      intros files.
    + exists []. by rewrite app_nil_r.
    + cbn [snd] in Hchild. rewrite loose_find_cons.
      destruct (Fs.isDirectory child && negb (Js.startsWith item ".")).
      * destruct (Hchild (Js.join dir item) files) as [added1 ->].
        destruct (IHitems (files ++ added1)) as [added2 ->].
        exists (added1 ++ added2). by rewrite (assoc_L (++)).
      * destruct (Js.endsWith item ".md").
        -- destruct (IHitems (files ++ [Loose.MkFile (Js.join dir item) child]))
             as [added2 ->].
           eexists. by rewrite <- (assoc_L (++)).
        -- apply IHitems.
Qed.

(** The loose traversal keeps every regular file of a directory it reads
    whose name ends in [.md], whatever the directory. *)
Lemma loose_find_keeps_md dir item content : ∀ items files,
  (item, Fs.File content) ∈ items →
  Js.endsWith item ".md" = true →
  Loose.MkFile (Js.join dir item) (Fs.File content)
  ∈ Loose.findMarkdownFiles dir (Fs.Dir items) files.
Proof.
  induction items as [|[item' child'] items IH]; intros files Hin Hmd.
  { by apply elem_of_nil in Hin. }
  rewrite loose_find_cons. apply elem_of_cons in Hin as [[= <- <-]|Hin].
  - cbn [Fs.isDirectory andb]. rewrite Hmd.
    destruct (loose_find_extends (Fs.Dir items) dir
                (files ++ [Loose.MkFile (Js.join dir item) (Fs.File content)]))
      as [added ->].
    apply elem_of_app. left. apply elem_of_app. right. by left.
  - by apply IH.
Qed.

End traversal.

(** ** A whole run *)
Section validate.
#[local] Arguments String.append : simpl nomatch.

Lemma strict_validate_loop : ∀ files totalErrors stdout,
  Forall (λ f, ∃ content, Strict.target f = Fs.File content) files →
  Strict.validate_loop files totalErrors stdout
  = verdict
      (stdout ++ concat (map (λ f, report (Strict.header (Strict.relPath f))
                                          (strict_errors f)) files))
      (totalErrors + sum_list (map (λ f, length (strict_errors f)) files)).
Proof.
  induction files as [|f files IH]; intros totalErrors stdout Hfiles.
  - cbn. by rewrite app_nil_r, Nat.add_0_r.
  - apply Forall_cons in Hfiles as [[content Hf] Hfiles].
    destruct f as [full rel target]. cbn in Hf. subst target.
    cbn [Strict.validate_loop map concat sum_list sum_list_with].
    unfold strict_errors at 1 3.
    destruct (strict_validateFile_total full rel content) as [errors ->].
    unfold report. cbn [Strict.relPath].
    destruct (0 <? length errors) eqn:Hlen.
    + rewrite IH by done. unfold id. f_equal; [|lia].
      by rewrite <- !(assoc_L (++)).
    + rewrite IH by done. apply Nat.ltb_ge in Hlen. unfold id.
      f_equal. lia.
Qed.

Lemma loose_validate_loop : ∀ files totalErrors stdout,
  Forall (λ f, ∃ content, Loose.target f = Fs.File content) files →
  Loose.validate_loop files totalErrors stdout
  = verdict
      (stdout ++ concat (map (λ f, report (Loose.header (Loose.path f))
                                          (loose_errors f)) files))
      (totalErrors + sum_list (map (λ f, length (loose_errors f)) files)).
Proof.
  induction files as [|f files IH]; intros totalErrors stdout Hfiles.
  - cbn. by rewrite app_nil_r, Nat.add_0_r.
  - apply Forall_cons in Hfiles as [[content Hf] Hfiles].
    destruct f as [path target]. cbn in Hf. subst target.
    cbn [Loose.validate_loop map concat sum_list sum_list_with].
    unfold loose_errors at 1 3.
    destruct (loose_validateFile_total path content) as [errors ->].
    unfold report. cbn [Loose.path].
    destruct (0 <? length errors) eqn:Hlen.
    + rewrite IH by done. unfold id. f_equal; [|lia].
      by rewrite <- !(assoc_L (++)).
    + rewrite IH by done. apply Nat.ltb_ge in Hlen. unfold id.
      f_equal. lia.
Qed.

End validate.

(** The stricter Validator always reaches its last line: it prints the
    report of every kept file, then the line for the total number of
    errors, and exits with 0 when that number is zero and with 1
    otherwise. *)
Lemma strict_validate_verdict root :
  let files := Strict.findMarkdownFiles "." (Fs.Dir root) [] in
  Strict.validate root
  = verdict
      (concat (map (λ f, report (Strict.header (Strict.relPath f))
                                (strict_errors f)) files))
      (sum_list (map (λ f, length (strict_errors f)) files)).
Proof.
  intros files. unfold Strict.validate. fold files.
  rewrite strict_validate_loop; [done|].
  eapply Forall_impl; [apply strict_found_files|].
  intros f (content & Hf & _). eauto.
Qed.

(** So does the loose Validator when every path its traversal kept is a
    regular file. *)
Lemma loose_validate_verdict root :
  let files := Loose.findMarkdownFiles "." (Fs.Dir root) [] in
  Forall (λ f, ∃ content, Loose.target f = Fs.File content) files →
  Loose.validate root
  = verdict
      (concat (map (λ f, report (Loose.header (Loose.path f))
                                (loose_errors f)) files))
      (sum_list (map (λ f, length (loose_errors f)) files)).
Proof.
  intros files Hfiles. unfold Loose.validate. fold files.
  by rewrite loose_validate_loop.
Qed.

(** C6 (as stated, refuted).  The loose Validator has no root filter: it
    checks a file under [notes/], which is not an allowed path, and
    reports its error. *)
Lemma loose_checks_outside_roots :
  ¬ allowed_path "notes/SESSION.md"
  ∧ Loose.validate [("notes", Fs.Dir [("SESSION.md", Fs.File "")])]
    = Exit [Loose.header "notes/SESSION.md";
            "   Junk doc detected: SESSION.md";
            Loose.failed_summary 1] 1.
Proof.
  split; [|by vm_compute].
  rewrite <- shouldValidate_allowed by by vm_compute. by vm_compute.
Qed.

(** C6 (amended).  In the stricter Validator the files that are checked
    are, of the markdown files the traversal comes across, those whose
    path lies under [guide/], [api/] or [components/] or is [index.md];
    the run prints the reports of these files and of no other.  The loose
    Validator has no such filter: every regular file with a name in [.md]
    of every directory it reads is checked. *)
Theorem root_filter :
  (∀ root,
     let files := Strict.findMarkdownFiles "." (Fs.Dir root) [] in
     files = filter (λ e, Strict.shouldValidate (Strict.relPath e))
                    (strict_discovered "." (Fs.Dir root))
     ∧ (∀ e, e ∈ strict_discovered "." (Fs.Dir root) →
             Strict.shouldValidate (Strict.relPath e) = true
             ↔ allowed_path (Strict.relPath e))
     ∧ Strict.validate root
       = verdict
           (concat (map (λ f, report (Strict.header (Strict.relPath f))
                                     (strict_errors f)) files))
           (sum_list (map (λ f, length (strict_errors f)) files)))
  ∧ (∀ dir items files item content,
       (item, Fs.File content) ∈ items →
       Js.endsWith item ".md" = true →
       Loose.MkFile (Js.join dir item) (Fs.File content)
       ∈ Loose.findMarkdownFiles dir (Fs.Dir items) files).
Proof.
  split.
  - intros root files. split_and!.
    + unfold files. by rewrite strict_find_filter.
    + intros e He. apply shouldValidate_allowed.
      pose proof (strict_discovered_files (Fs.Dir root) ".") as Hd.
      rewrite Forall_forall in Hd. by destruct (Hd e He) as (? & _ & _ & ?).
    + apply strict_validate_verdict.
  - intros dir items files item content. apply loose_find_keeps_md.
Qed.

Lemma root_filter_witness :
  let root :=
    [("guide", Fs.Dir [("SESSION.md", Fs.File "")]);
     ("notes", Fs.Dir [("SESSION.md", Fs.File "")])] in
  Strict.validate root
  = Exit [Strict.header "guide/SESSION.md";
          "   Junk doc detected: SESSION.md";
          "   Missing frontmatter block";
          Strict.failed_summary 2] 1
  ∧ Loose.MkFile "notes/SESSION.md" (Fs.File "")
    ∈ Loose.findMarkdownFiles "notes"
        (Fs.Dir [("SESSION.md", Fs.File "")]) [].
Proof.
  intros root. split.
  - exact (proj2 (proj2 (proj1 root_filter root))).
  - apply (proj2 root_filter "notes" [("SESSION.md", Fs.File "")] []
             "SESSION.md" "").
    + constructor.
    + reflexivity.
Defined.

(** C8.  The stricter Validator, on every tree, goes through all the kept
    files, prints the report of each, and ends with the line and the
    status of the total number of errors: [All docs validated] and 0 when
    it is zero, [Validation failed] with the number and 1 otherwise.  The
    loose Validator does not on every tree: its traversal also keeps a
    directory whose name starts with a dot and ends in [.md]; reading it
    throws, and the run dies there without a summary line, although no
    error was found. *)
Theorem validate_exit_status :
  (∀ root,
     let files := Strict.findMarkdownFiles "." (Fs.Dir root) [] in
     let total := sum_list (map (λ f, length (strict_errors f)) files) in
     let reports :=
       concat (map (λ f, report (Strict.header (Strict.relPath f))
                                (strict_errors f)) files) in
     Strict.validate root
     = if 0 <? total
       then Exit (reports ++ [Strict.failed_summary total]) 1
       else Exit (reports ++ [Strict.ok_summary]) 0)
  ∧ (let root :=
       [("guide", Fs.Dir [("intro.md",
                           Fs.File ("---" +:+ nl +:+ "title: Intro" +:+ nl
                                          +:+ "description: Start here" +:+ nl
                                          +:+ "---" +:+ nl))]);
        (".drafts.md", Fs.Dir [])] in
     Loose.findMarkdownFiles "." (Fs.Dir root) []
     = [Loose.MkFile "guide/intro.md"
          (Fs.File ("---" +:+ nl +:+ "title: Intro" +:+ nl
                          +:+ "description: Start here" +:+ nl
                          +:+ "---" +:+ nl));
        Loose.MkFile ".drafts.md" (Fs.Dir [])]
     ∧ Loose.validate root
       = Uncaught [] "EISDIR: illegal operation on a directory, read"
     ∧ Strict.validate root = Exit [Strict.ok_summary] 0).
Proof.
  split.
  - intros root files total reports. apply strict_validate_verdict.
  - intros root. split_and!; by vm_compute.
Qed.

(** ** Sync Engine *)
Section sync.
Import Sync SyncContract.
Context {FS : Type} `{!FileSystem FS} (cwd : string).
Implicit Types (st : state FS) (entries : list (string * string)).

Lemma step_blocked st source dest :
  isJunkDoc source = true →
  step cwd st (source, dest)
  = Ok (MkState (fs st) (stdout st ++ ["❌ Blocked: " +:+ source])
                (synced st) (blocked st + 1)).
Proof. intros Hj. unfold step. by rewrite Hj. Qed.

Lemma step_missing st source dest :
  isJunkDoc source = false →
  existsSync (fs st) source = false →
  step cwd st (source, dest) = Ok st.
Proof. intros Hj Hs. unfold step. by rewrite Hj, Hs. Qed.

(** One iteration does to the file system what [copy] says, exceptions
    included; when it returns it has moved one counter, or none, and
    printed the line of the entry. *)
Lemma step_spec st entry :
  match step cwd st entry with
  | Ok st' =>
      copy cwd (fs st) entry = Ok (fs st')
      ∧ synced st' = synced st + (if copied (fs st) entry then 1 else 0)
      ∧ blocked st' = blocked st + (if isJunkDoc entry.1 then 1 else 0)
      ∧ stdout st' = stdout st ++ line (fs st) entry
  | Throw e => copy cwd (fs st) entry = Throw e
  end.
Proof.
  destruct entry as [source dest]. unfold step, copy, copied, line.
  cbn [fst snd]. destruct (isJunkDoc source).
  { cbn. split_and!; [done|lia|done..]. }
  destruct (existsSync (fs st) source).
  - destruct (readFileSync (fs st) source) as [content|e]; [|done].
    cbn [mbind result_bind].
    destruct (writeFileSync (fs st) (Path.join cwd dest) content)
      as [fs'|e]; [|done].
    cbn. split_and!; first [done|lia].
  - cbn. split_and!; [done|lia|lia|by rewrite app_nil_r].
Qed.

Lemma loop_spec entries : ∀ st,
  match loop cwd entries st with
  | Ok st' =>
      run cwd (fs st) entries = Ok (fs st')
      ∧ synced st'
        = synced st
          + length (filter (λ x, copied x.2 x.1)
                           (timeline cwd entries (fs st)))
      ∧ blocked st'
        = blocked st + length (filter (λ e, isJunkDoc e.1) entries)
      ∧ stdout st'
        = stdout st
          ++ concat (map (λ x, line x.2 x.1) (timeline cwd entries (fs st)))
  | Throw e => run cwd (fs st) entries = Throw e
  end.
Proof.
  induction entries as [|entry rest IH]; intros st.
  { cbn. split_and!; [done|lia|lia|by rewrite app_nil_r]. }
  cbn [loop run timeline]. pose proof (step_spec st entry) as Hstep.
  destruct (step cwd st entry) as [st1|e]; cbn [mbind result_bind];
    [|by rewrite Hstep].
  destruct Hstep as (Hcopy & Hsy & Hbl & Hout). rewrite Hcopy.
  cbn [mbind result_bind]. specialize (IH st1).
  destruct (loop cwd rest st1) as [st'|e]; [|done].
  destruct IH as (Hrun & Hsy' & Hbl' & Hout').
  rewrite Hsy', Hbl', Hout', Hsy, Hbl, Hout.
  cbn [map concat fst snd]. split_and!; [done| | |by rewrite (assoc_L (++))].
  - destruct (copied (fs st) entry) eqn:Hc.
    + rewrite filter_cons_True by (cbn [fst snd]; by apply Is_true_true).
      cbn [length]. lia.
    + rewrite filter_cons_False by (cbn [fst snd]; by apply Is_true_false).
      lia.
  - destruct (isJunkDoc entry.1) eqn:Hj.
    + rewrite filter_cons_True by by apply Is_true_true. cbn [length]. lia.
    + rewrite filter_cons_False by by apply Is_true_false. lia.
Qed.

(** An exception of the loop is an exception of a read or of a write of
    an entry that is not blocked and whose source exists. *)
Lemma loop_throws entries : ∀ st e,
  loop cwd entries st = Throw e →
  ∃ fs source dest,
    (source, dest) ∈ entries
    ∧ isJunkDoc source = false
    ∧ existsSync fs source = true
    ∧ (readFileSync fs source = Throw e
       ∨ ∃ content, readFileSync fs source = Ok content
                    ∧ writeFileSync fs (Path.join cwd dest) content
                      = Throw e).
Proof.
  induction entries as [|[source dest] rest IH]; intros st e; [done|].
  cbn [loop]. destruct (step cwd st (source, dest)) as [st1|e1] eqn:Hstep;
    cbn [mbind result_bind].
  - intros Hloop. apply IH in Hloop as (fs1 & s & d & Hin & Hrest).
    exists fs1, s, d. split; [by right|done].
  - intros [= ->]. exists (fs st), source, dest. split; [by left|].
    unfold step in Hstep. destruct (isJunkDoc source); [done|].
    destruct (existsSync (fs st) source); [|done].
    split_and!; [done..|].
    destruct (readFileSync (fs st) source) as [content|e1];
      cbn [mbind result_bind] in Hstep; [|left; congruence].
    right. exists content. split; [done|].
    destruct (writeFileSync (fs st) (Path.join cwd dest) content);
      cbn [mbind result_bind] in Hstep; congruence.
Qed.

(** The loop returns when, on the file systems it goes through, the
    reads and the writes it makes return. *)
Lemma loop_completes (I : FS → Prop) entries0 :
  (∀ fs e, I fs → e ∈ entries0 →
     isJunkDoc e.1 = false → existsSync fs e.1 = true →
     ∃ content fs',
       readFileSync fs e.1 = Ok content
       ∧ writeFileSync fs (Path.join cwd e.2) content = Ok fs'
       ∧ I fs') →
  ∀ entries st, entries ⊆ entries0 → I (fs st) →
    ∃ st', loop cwd entries st = Ok st' ∧ I (fs st').
Proof.
  intros Hcalls. induction entries as [|[source dest] rest IH];
    intros st Hsub HI; [by exists st|].
  assert ((source, dest) ∈ entries0) as Hin by (apply Hsub; left).
  assert (rest ⊆ entries0) as Hsub' by (intros x Hx; apply Hsub; by right).
  cbn [loop]. destruct (isJunkDoc source) eqn:Hj.
  { rewrite step_blocked by done. cbn [mbind result_bind]. by apply IH. }
  destruct (existsSync (fs st) source) eqn:Hs.
  - destruct (Hcalls (fs st) (source, dest) HI Hin Hj Hs)
      as (content & fs' & Hread & Hwrite & HI').
    unfold step. rewrite Hj, Hs. cbn [fst snd] in *. rewrite Hread.
    cbn [mbind result_bind]. rewrite Hwrite. cbn [mbind result_bind].
    by apply IH.
  - rewrite step_missing by done. cbn [mbind result_bind]. by apply IH.
Qed.

(** What the writes of the mapping keep, the loop keeps. *)
Lemma loop_invariant (I : FS → Prop) entries0 :
  (∀ fs fs' e content, I fs → e ∈ entries0 →
     isJunkDoc e.1 = false → existsSync fs e.1 = true →
     readFileSync fs e.1 = Ok content →
     writeFileSync fs (Path.join cwd e.2) content = Ok fs' →
     I fs') →
  ∀ entries st st', entries ⊆ entries0 → I (fs st) →
    loop cwd entries st = Ok st' → I (fs st').
Proof.
  intros Hwrites. induction entries as [|[source dest] rest IH];
    intros st st' Hsub HI; [by intros [= <-]|].
  assert ((source, dest) ∈ entries0) as Hin by (apply Hsub; left).
  assert (rest ⊆ entries0) as Hsub' by (intros x Hx; apply Hsub; by right).
  cbn [loop]. destruct (isJunkDoc source) eqn:Hj.
  { rewrite step_blocked by done. cbn [mbind result_bind]. by apply IH. }
  destruct (existsSync (fs st) source) eqn:Hs.
  - unfold step. rewrite Hj, Hs.
    destruct (readFileSync (fs st) source) as [content|e] eqn:Hread;
      cbn [mbind result_bind]; [|done].
    destruct (writeFileSync (fs st) (Path.join cwd dest) content)
      as [fs'|e] eqn:Hwrite; cbn [mbind result_bind]; [|done].
    apply IH; [done|]. cbn [fs].
    by apply (Hwrites (fs st) fs' (source, dest) content).
  - rewrite step_missing by done. cbn [mbind result_bind]. by apply IH.
Qed.

(** *** Mappings whose writes leave the sources where they are *)

Lemma copy_stable entries0 (fs fs' fs0 : FS) e :
  stable cwd entries0 → e ∈ entries0 →
  copy cwd fs e = Ok fs' →
  (∀ e', e' ∈ entries0 → existsSync fs e'.1 = existsSync fs0 e'.1) →
  ∀ e', e' ∈ entries0 → existsSync fs' e'.1 = existsSync fs0 e'.1.
Proof.
  intros Hstable He Hcopy Hag e' He'. unfold copy in Hcopy.
  destruct (isJunkDoc e.1); [injection Hcopy as <-; by apply Hag|].
  destruct (existsSync fs e.1); [|injection Hcopy as <-; by apply Hag].
  destruct (readFileSync fs e.1) as [content|?];
    cbn [mbind result_bind] in Hcopy; [|done].
  rewrite (Hstable fs fs' e e' content) by done. by apply Hag.
Qed.

Lemma timeline_stable entries0 (fs0 : FS) :
  stable cwd entries0 →
  ∀ rest fs fs',
    rest ⊆ entries0 →
    (∀ e, e ∈ entries0 → existsSync fs e.1 = existsSync fs0 e.1) →
    run cwd fs rest = Ok fs' →
    length (filter (λ x, copied x.2 x.1) (timeline cwd rest fs))
    = length (filter (copied fs0) rest)
    ∧ concat (map (λ x, line x.2 x.1) (timeline cwd rest fs))
      = concat (map (line fs0) rest).
Proof.
  intros Hstable. induction rest as [|e rest IH];
    intros fs fs' Hsub Hag Hrun; [done|].
  assert (e ∈ entries0) as He by (apply Hsub; left).
  assert (rest ⊆ entries0) as Hsub' by (intros x Hx; apply Hsub; by right).
  cbn [run timeline] in *.
  destruct (copy cwd fs e) as [fs1|?] eqn:Hcopy;
    cbn [mbind result_bind] in Hrun; [|done].
  destruct (IH fs1 fs' Hsub' (copy_stable entries0 fs fs1 fs0 e Hstable He
                                Hcopy Hag) Hrun) as [IHn IHl].
  assert (copied fs e = copied fs0 e) as Hc.
  { unfold copied. by rewrite (Hag e He). }
  assert (line fs e = line fs0 e) as Hl.
  { unfold line. by rewrite (Hag e He). }
  cbn [map concat fst snd]. rewrite Hl, IHl. split; [|done].
  destruct (copied fs0 e) eqn:Hc0.
  - rewrite !filter_cons_True
      by (cbn [fst snd]; apply Is_true_true; congruence).
    cbn [length]. by rewrite IHn.
  - by rewrite !filter_cons_False
      by (cbn [fst snd]; apply Is_true_false; congruence).
Qed.

End sync.

(** ** The disk of the examples *)
Section disk.
Import Sync SyncContract.

Lemma returns {A} (r : result A) :
  match r with Ok _ => True | Throw _ => False end → ∃ a, r = Ok a.
Proof. destruct r; [eauto|done]. Qed.

Lemma disk_write_other (d d' : Disk.disk) p q content :
  Disk.writeFileSync d p content = Ok d' →
  p ≠ q →
  Disk.at_path d' q = Disk.at_path d q.
Proof.
  unfold Disk.writeFileSync, Disk.at_path. intros Hwrite Hne.
  destruct (String.eqb q "/"); [done|].
  destruct (if String.eqb p "/" then Some Disk.Directory else d !! p)
    as [[?|]|]; [|done|];
    destruct (if String.eqb (Disk.dirname p) "/"
              then Some Disk.Directory else d !! Disk.dirname p)
      as [[?|]|]; try done;
    injection Hwrite as <-; by rewrite lookup_insert_ne.
Qed.

(** On a disk, a mapping none of whose destinations is a source is
    stable. *)
Lemma disk_stable cwd (entries : list (string * string)) :
  Forall (λ e, Forall (λ e', Path.join cwd e.2 ≠ e'.1) entries) entries →
  stable (FS := Disk.disk) cwd entries.
Proof.
  intros Hsep d d' e e' content He He' Hwrite.
  rewrite Forall_forall in Hsep. specialize (Hsep e He).
  rewrite Forall_forall in Hsep. specialize (Hsep e' He').
  cbn. unfold Disk.existsSync.
  by rewrite (disk_write_other d d' _ _ content Hwrite Hsep).
Qed.

Lemma disk_write_read (d d' : Disk.disk) p content :
  Disk.writeFileSync d p content = Ok d' →
  Disk.readFileSync d' p = Ok content.
Proof.
  unfold Disk.writeFileSync, Disk.readFileSync, Disk.at_path.
  destruct (String.eqb p "/"); [done|].
  destruct (d !! p) as [[?|]|]; [|done|];
    destruct (if String.eqb (Disk.dirname p) "/"
              then Some Disk.Directory else d !! Disk.dirname p)
      as [[?|]|]; try done;
    intros [= <-]; by rewrite lookup_insert_eq.
Qed.

(** On a disk, the writes of a mapping none of whose destinations is a
    source leave the sources, and what is written stays. *)
Lemma disk_sources_kept cwd (entries : list (string * string)) :
  Forall (λ e, Forall (λ e', Path.join cwd e.2 ≠ e'.1) entries) entries →
  sources_kept (FS := Disk.disk) cwd entries.
Proof.
  intros Hsep d d' e e' content He He' Hwrite.
  rewrite Forall_forall in Hsep. specialize (Hsep e He).
  rewrite Forall_forall in Hsep. specialize (Hsep e' He').
  cbn. unfold Disk.readFileSync.
  by rewrite (disk_write_other d d' _ _ content Hwrite Hsep).
Qed.

Lemma disk_written_stays cwd (entries : list (string * string)) :
  written_stays (FS := Disk.disk) cwd entries.
Proof.
  intros d d' e content He Hwrite. split.
  - by apply (disk_write_read d d').
  - intros e' He' Hne. cbn. unfold Disk.readFileSync.
    rewrite (disk_write_other d d' _ _ content Hwrite); [done|].
    by intros Heq.
Qed.

End disk.

(** C9 (as stated, refuted).  The final count does depend on the file
    system.  With the directory [guide] missing, the write of the first
    entry throws and the run ends there: the second entry, whose source
    is blocked, is never reached and nothing is counted.  With the
    directory in place the same mapping ends with one blocked entry. *)
Lemma sync_dies_before_blocked_entry :
  let sources := [("/mnt/development/README.md", "guide/index.md");
                  ("/mnt/development/SESSION_LOG.md", "guide/log.md")] in
  let fs0 : Disk.disk :=
    {[ "/mnt" := Disk.Directory;
       "/mnt/development" := Disk.Directory;
       "/mnt/development/README.md" := Disk.File "# Readme";
       "/srv" := Disk.Directory;
       "/srv/docs" := Disk.Directory ]} in
  let fs1 : Disk.disk := <["/srv/docs/guide" := Disk.Directory]> fs0 in
  length (filter (λ e, Sync.isJunkDoc e.1) sources) = 1
  ∧ Sync.syncDocs sources "/srv/docs" fs0
    = Throw "ENOENT: no such file or directory, open '/srv/docs/guide/index.md'"
  ∧ Sync.blocked <$> Sync.syncDocs sources "/srv/docs" fs1 = Ok 1.
Proof. split_and!; by vm_compute. Qed.

(** C9 (amended).  The blocked-pattern test comes first in the loop: an
    entry whose source matches a blocked pattern is counted as blocked
    and its line printed without any call to the file system, whatever
    the file system is and whether the source exists or not.  Whenever
    the run ends normally, its blocked count is the number of entries of
    the mapping whose source matches a blocked pattern.  The run ends
    otherwise only with the exception of a read or of a write of an entry
    that is not blocked and whose source exists. *)
Theorem blocked_count_ignores_file_system
    {FS : Type} `{!Sync.FileSystem FS}
    (sources : list (string * string)) (cwd : string) (fs0 : FS) :
  (∀ (st : Sync.state FS) source dest,
     Sync.isJunkDoc source = true →
     Sync.step cwd st (source, dest)
     = Ok (Sync.MkState (Sync.fs st)
             (Sync.stdout st ++ ["❌ Blocked: " +:+ source])
             (Sync.synced st) (Sync.blocked st + 1)))
  ∧ (∀ st, Sync.syncDocs sources cwd fs0 = Ok st →
           Sync.blocked st
           = length (filter (λ e, Sync.isJunkDoc e.1) sources))
  ∧ (∀ e, Sync.syncDocs sources cwd fs0 = Throw e →
          ∃ fs source dest,
            (source, dest) ∈ sources
            ∧ Sync.isJunkDoc source = false
            ∧ Sync.existsSync fs source = true
            ∧ (Sync.readFileSync fs source = Throw e
               ∨ ∃ content,
                   Sync.readFileSync fs source = Ok content
                   ∧ Sync.writeFileSync fs (Path.join cwd dest) content
                     = Throw e)).
Proof.
  split_and!.
  - intros st source dest. apply step_blocked.
  - intros st. unfold Sync.syncDocs.
    pose proof (loop_spec cwd sources (Sync.MkState fs0 [] 0 0)) as Hloop.
    destruct (Sync.loop cwd sources _) as [st'|e]; [|done].
    intros [= <-]. destruct Hloop as (_ & _ & Hbl & _). cbn in *. lia.
  - intros e. unfold Sync.syncDocs.
    destruct (Sync.loop cwd sources _) as [st'|e'] eqn:Hloop; [done|].
    intros [= ->]. by apply loop_throws in Hloop.
Qed.

Lemma blocked_count_ignores_file_system_witness :
  let sources := [("/mnt/development/README.md", "guide/index.md");
                  ("/mnt/development/SESSION_LOG.md", "guide/log.md")] in
  let fs1 : Disk.disk :=
    {[ "/mnt" := Disk.Directory;
       "/mnt/development" := Disk.Directory;
       "/mnt/development/README.md" := Disk.File "# Readme";
       "/srv" := Disk.Directory;
       "/srv/docs" := Disk.Directory;
       "/srv/docs/guide" := Disk.Directory ]} in
  ∃ st, Sync.syncDocs sources "/srv/docs" fs1 = Ok st ∧ Sync.blocked st = 1.
Proof.
  intros sources fs1.
  destruct (returns (Sync.syncDocs sources "/srv/docs" fs1)) as [st Hrun];
    [vm_compute; reflexivity|].
  exists st. split; [exact Hrun|].
  exact (proj1 (proj2 (blocked_count_ignores_file_system
                         sources "/srv/docs" fs1)) st Hrun).
Defined.

(** C7 (as stated, refuted).  The run does raise.  The shipped mapping,
    run in [/srv/docs] when the directory [guide] is not there, ends with
    the exception of the first write; run where the first source is a
    directory, it ends with the exception of the first read. *)
Lemma sync_throws_on_read_and_write :
  let fs0 : Disk.disk :=
    {[ "/mnt" := Disk.Directory;
       "/mnt/development" := Disk.Directory;
       "/mnt/development/README.md" := Disk.File "# Readme";
       "/srv" := Disk.Directory;
       "/srv/docs" := Disk.Directory ]} in
  let fs1 : Disk.disk :=
    {[ "/mnt" := Disk.Directory;
       "/mnt/development" := Disk.Directory;
       "/mnt/development/README.md" := Disk.Directory;
       "/srv" := Disk.Directory;
       "/srv/docs" := Disk.Directory;
       "/srv/docs/guide" := Disk.Directory ]} in
  Sync.syncDocs Sync.APPROVED_SOURCES "/srv/docs" fs0
  = Throw "ENOENT: no such file or directory, open '/srv/docs/guide/index.md'"
  ∧ Sync.syncDocs Sync.APPROVED_SOURCES "/srv/docs" fs1
    = Throw "EISDIR: illegal operation on a directory, read".
Proof. split; by vm_compute. Qed.

(** C7 (amended).  A missing source never makes the run raise: an entry
    whose source is not blocked and does not exist changes nothing and is
    counted nowhere.  The run does to the file system what the contract
    describes, entry by entry: a source that is not blocked and exists is
    read and its content written verbatim at the destination, any other
    entry changes nothing; the run raises exactly when one of these reads
    or writes raises, with its exception.  When the run ends normally, the
    synced count is the number of entries whose source is not blocked and
    exists when its turn comes, and the blocked count the number of
    entries whose source matches a blocked pattern; when moreover no write
    of the mapping changes whether a source exists, the synced count is
    the number of not blocked sources that exist before the run.  The run
    ends normally whenever the reads and writes it makes return. *)
Theorem sync_skips_missing_sources
    {FS : Type} `{!Sync.FileSystem FS}
    (sources : list (string * string)) (cwd : string) (fs0 : FS) :
  (∀ (st : Sync.state FS) source dest,
     Sync.isJunkDoc source = false →
     Sync.existsSync (Sync.fs st) source = false →
     Sync.step cwd st (source, dest) = Ok st)
  ∧ Sync.fs <$> Sync.syncDocs sources cwd fs0
    = SyncContract.run cwd fs0 sources
  ∧ (∀ st, Sync.syncDocs sources cwd fs0 = Ok st →
       Sync.synced st
       = length (filter (λ x, SyncContract.copied x.2 x.1)
                        (SyncContract.timeline cwd sources fs0))
       ∧ Sync.blocked st
         = length (filter (λ e, Sync.isJunkDoc e.1) sources)
       ∧ (SyncContract.stable (FS := FS) cwd sources →
          Sync.synced st
          = length (filter (SyncContract.copied fs0) sources)))
  ∧ (∀ I : FS → Prop,
       I fs0 →
       (∀ fs e, I fs → e ∈ sources →
          Sync.isJunkDoc e.1 = false → Sync.existsSync fs e.1 = true →
          ∃ content fs',
            Sync.readFileSync fs e.1 = Ok content
            ∧ Sync.writeFileSync fs (Path.join cwd e.2) content = Ok fs'
            ∧ I fs') →
       ∃ st, Sync.syncDocs sources cwd fs0 = Ok st).
Proof.
  pose proof (loop_spec cwd sources (Sync.MkState fs0 [] 0 0)) as Hloop.
  split_and!.
  - intros st source dest. apply step_missing.
  - unfold Sync.syncDocs.
    destruct (Sync.loop cwd sources _) as [st'|e]; cbn [Sync.fs] in Hloop;
      [|by rewrite Hloop].
    by destruct Hloop as (-> & _).
  - intros st. unfold Sync.syncDocs.
    destruct (Sync.loop cwd sources _) as [st'|e]; [|done].
    intros [= <-]. destruct Hloop as (Hrun & Hsy & Hbl & _). cbn in *.
    split_and!; [lia..|].
    intros Hstable. rewrite Hsy. cbn [plus].
    by apply (timeline_stable cwd sources fs0 Hstable sources fs0
                (Sync.fs st')).
  - intros I HI Hcalls. unfold Sync.syncDocs.
    destruct (loop_completes cwd I sources Hcalls sources
                (Sync.MkState fs0 [] 0 0)) as (st' & -> & _); [done..|].
    by eexists.
Qed.

(** The shipped mapping, run in [/srv/docs] when only two of the seven
    sources exist: both are counted, the other five are passed over. *)
Lemma sync_skips_missing_sources_witness :
  let fs0 : Disk.disk :=
    {[ "/mnt" := Disk.Directory;
       "/mnt/development" := Disk.Directory;
       "/mnt/development/README.md" := Disk.File "# Readme";
       "/mnt/development/CODING_GUIDELINES.md" := Disk.File "rules";
       "/srv" := Disk.Directory;
       "/srv/docs" := Disk.Directory;
       "/srv/docs/guide" := Disk.Directory ]} in
  ∃ st, Sync.syncDocs Sync.APPROVED_SOURCES "/srv/docs" fs0 = Ok st
        ∧ Sync.synced st = 2
        ∧ Sync.blocked st = 0.
Proof.
  intros fs0.
  destruct (returns (Sync.syncDocs Sync.APPROVED_SOURCES "/srv/docs" fs0))
    as [st Hrun]; [vm_compute; reflexivity|].
  exists st. split; [exact Hrun|].
  destruct (proj1 (proj2 (proj2 (sync_skips_missing_sources
                                   Sync.APPROVED_SOURCES "/srv/docs" fs0)))
              st Hrun) as (_ & Hbl & Hsy).
  split.
  - rewrite Hsy; [vm_compute; reflexivity|].
    apply disk_stable. apply (bool_decide_unpack _). vm_compute. exact I.
  - rewrite Hbl. vm_compute. reflexivity.
Defined.

(** C2.  The test of the Sync Engine is applied to the whole source path.
    An entry whose file name [README.md] matches no blocked pattern, but
    which lies in a directory called [session-logs], is counted as
    blocked and is not copied, although the source exists. *)
Theorem sync_blocks_on_directory_name :
  let source := "/mnt/development/session-logs/README.md" in
  let fs0 : Disk.disk :=
    {[ "/mnt" := Disk.Directory;
       "/mnt/development" := Disk.Directory;
       "/mnt/development/session-logs" := Disk.Directory;
       source := Disk.File "# Readme";
       "/srv" := Disk.Directory;
       "/srv/docs" := Disk.Directory;
       "/srv/docs/guide" := Disk.Directory ]} in
  Sync.isJunkDoc (Js.pop (Js.split source "/")) = false
  ∧ Sync.isJunkDoc source = true
  ∧ ∃ st, Sync.syncDocs [(source, "guide/index.md")] "/srv/docs" fs0 = Ok st
          ∧ Sync.blocked st = 1
          ∧ Sync.synced st = 0
          ∧ Sync.fs st !! "/srv/docs/guide/index.md" = None.
Proof.
  intros source fs0. split; [by vm_compute|].
  assert (Sync.isJunkDoc source = true) as Hj by by vm_compute.
  split; [exact Hj|].
  unfold Sync.syncDocs. cbn [Sync.loop]. rewrite step_blocked by exact Hj.
  cbn [mbind result_bind]. eexists. split; [reflexivity|].
  cbn [Sync.blocked Sync.synced Sync.fs]. split_and!; [done..|].
  by vm_compute.
Qed.

(** * Further properties *)

(** ** The three tables of patterns *)
Section tables.
#[local] Arguments String.append : simpl nomatch.

Lemma fold_case_app a b :
  fold_case (a +:+ b) = fold_case a +:+ fold_case b.
Proof. induction a as [|c a IH]; cbn; [done|by rewrite IH]. Qed.

Lemma includes_middle a p b : Js.includes (a +:+ p +:+ b) p = true.
Proof. apply includes_iff. by exists a, b. Qed.

Lemma word_then_md_includes word filename :
  word_then_md word filename →
  Js.includes (fold_case filename) (fold_case word) = true.
Proof.
  intros (pre & w & mid & ext & -> & Hw & _ & _).
  rewrite !fold_case_app, Hw. apply includes_middle.
Qed.

Lemma loose_blocked_strict filename :
  loose_blocked filename →
  existsb (λ word, Js.includes (fold_case filename) word) JUNK_WORDS
  = true.
Proof.
  intros [Hsuffix|[Hword|Hword]].
  - apply existsb_exists in Hsuffix as (suffix & Hin & Hends).
    apply endsWith_iff in Hends as [a Ha]. rewrite Ha.
    apply existsb_exists. unfold LOOSE_SUFFIXES in Hin. cbn [In] in Hin.
    destruct Hin as [<-|[<-|[<-|[<-|[<-|[<-|[]]]]]]].
    + exists "SUMMARY". split; [cbn; tauto|].
      apply (includes_middle a "SUMMARY" ".MD").
    + exists "COMPLETE". split; [cbn; tauto|].
      apply (includes_middle a "COMPLETE" ".MD").
    + exists "FIXES". split; [cbn; tauto|].
      apply (includes_middle a "FIXES" ".MD").
    + exists "STATUS". split; [cbn; tauto|].
      apply (includes_middle a "STATUS" ".MD").
    + exists "AUDIT". split; [cbn; tauto|].
      replace (a +:+ "_AUDIT.MD") with ((a +:+ "_") +:+ "AUDIT" +:+ ".MD")
        by by rewrite sapp_assoc.
      apply includes_middle.
    + exists "VERIFICATION". split; [cbn; tauto|].
      apply (includes_middle a "VERIFICATION" ".MD").
  - apply existsb_exists. exists "SESSION". split; [cbn; tauto|].
    by apply (word_then_md_includes "SESSION").
  - apply existsb_exists. exists "PROMPT". split; [cbn; tauto|].
    by apply (word_then_md_includes "PROMPT").
Qed.

End tables.

(** X1.  The three tables of patterns are nested.  A name that the loose
    Validator reports is reported by the stricter Validator; a name is
    reported by the stricter Validator exactly when the Sync Engine blocks
    it or it holds VERIFICATION, in any case. *)
Theorem junk_tables_nested (filename : string) :
  (existsb (λ p, test p filename) Loose.JUNK_PATTERNS = true →
   existsb (λ p, test p filename) Strict.JUNK_PATTERNS = true)
  ∧ existsb (λ p, test p filename) Strict.JUNK_PATTERNS
    = Sync.isJunkDoc filename
      || Js.includes (fold_case filename) "VERIFICATION".
Proof.
  split.
  - intros Hloose. rewrite strict_junk_words.
    by apply loose_blocked_strict, loose_junk_blocked.
  - unfold Sync.isJunkDoc, Sync.BLOCKED_PATTERNS, Strict.JUNK_PATTERNS.
    cbn [existsb]. rewrite !test_lit_ci.
    change (fold_case "VERIFICATION") with "VERIFICATION".
    by rewrite !orb_false_r, <- !orb_assoc.
Qed.

Lemma junk_tables_nested_witness :
  existsb (λ p, test p "Deploy_Status.md") Loose.JUNK_PATTERNS = true
  ∧ existsb (λ p, test p "Deploy_Status.md") Strict.JUNK_PATTERNS = true.
Proof.
  assert (existsb (λ p, test p "Deploy_Status.md") Loose.JUNK_PATTERNS = true)
    as Hloose by (by vm_compute).
  split; [exact Hloose|].
  exact (proj1 (junk_tables_nested "Deploy_Status.md") Hloose).
Defined.

(** ** The file system and the console of the Sync Engine *)

(** X2.  The Sync Engine changes the file system by nothing but the
    writes of its mapping: a property of the file system that holds
    before the run, and that every write of the content of an existing,
    not blocked source at the destination of its entry keeps, holds after
    the run. *)
Theorem sync_writes_destinations_only
    {FS : Type} `{!Sync.FileSystem FS} (I : FS → Prop)
    (sources : list (string * string)) (cwd : string) (fs0 : FS)
    (st : Sync.state FS) :
  I fs0 →
  (∀ fs fs' e content,
     I fs → e ∈ sources →
     Sync.isJunkDoc e.1 = false → Sync.existsSync fs e.1 = true →
     Sync.readFileSync fs e.1 = Ok content →
     Sync.writeFileSync fs (Path.join cwd e.2) content = Ok fs' →
     I fs') →
  Sync.syncDocs sources cwd fs0 = Ok st →
  I (Sync.fs st).
Proof.
  intros HI Hwrites. unfold Sync.syncDocs.
  destruct (Sync.loop cwd sources _) as [st'|e] eqn:Hloop; [|done].
  intros [= <-]. cbn [Sync.fs].
  by apply (loop_invariant cwd I sources Hwrites sources
              (Sync.MkState fs0 [] 0 0) st').
Qed.

Lemma sync_writes_destinations_only_witness :
  let fs0 : Disk.disk :=
    {[ "/mnt" := Disk.Directory;
       "/mnt/development" := Disk.Directory;
       "/mnt/development/README.md" := Disk.File "# Readme";
       "/srv" := Disk.Directory;
       "/srv/docs" := Disk.Directory;
       "/srv/docs/index.md" := Disk.File "home";
       "/srv/docs/guide" := Disk.Directory ]} in
  ∃ st, Sync.syncDocs Sync.APPROVED_SOURCES "/srv/docs" fs0 = Ok st
        ∧ Disk.at_path (Sync.fs st) "/srv/docs/index.md"
          = Some (Disk.File "home").
Proof.
  intros fs0.
  destruct (returns (Sync.syncDocs Sync.APPROVED_SOURCES "/srv/docs" fs0))
    as [st Hrun]; [vm_compute; reflexivity|].
  exists st. split; [exact Hrun|].
  apply (sync_writes_destinations_only
           (λ d, Disk.at_path d "/srv/docs/index.md" = Some (Disk.File "home"))
           Sync.APPROVED_SOURCES "/srv/docs" fs0 st).
  - vm_compute. reflexivity.
  - intros d d' e content Hd He _ _ _ Hwrite.
    rewrite (disk_write_other d d' _ "/srv/docs/index.md" content Hwrite);
      [exact Hd|].
    assert (Forall (λ e, Path.join "/srv/docs" e.2 ≠ "/srv/docs/index.md")
                   Sync.APPROVED_SOURCES) as Hne.
    { apply (bool_decide_unpack _). vm_compute. exact I. }
    rewrite Forall_forall in Hne. by apply Hne.
  - exact Hrun.
Defined.

(** X3.  The console of the Sync Engine after a run that ends normally:
    for each entry of the mapping, in its order, the line [Blocked] with
    the source when the source matches a blocked pattern, the line
    [Synced] with source and destination when the source is not blocked
    and exists when its turn comes, and no line when it is missing; then
    the summary line.  When no write of the mapping changes whether a
    source exists, existence before the run decides. *)
Theorem sync_prints_one_line_per_count
    {FS : Type} `{!Sync.FileSystem FS}
    (sources : list (string * string)) (cwd : string) (fs0 : FS)
    (st : Sync.state FS) :
  Sync.syncDocs sources cwd fs0 = Ok st →
  Sync.stdout st
  = concat (map (λ x, SyncContract.line x.2 x.1)
                (SyncContract.timeline cwd sources fs0))
    ++ [Sync.summary st]
  ∧ (SyncContract.stable (FS := FS) cwd sources →
     Sync.stdout st
     = concat (map (SyncContract.line fs0) sources) ++ [Sync.summary st]).
Proof.
  unfold Sync.syncDocs.
  pose proof (loop_spec cwd sources (Sync.MkState fs0 [] 0 0)) as Hloop.
  destruct (Sync.loop cwd sources _) as [st'|e]; [|done].
  intros [= <-]. destruct Hloop as (Hrun & _ & _ & Hout).
  cbn [Sync.stdout Sync.fs app] in *. rewrite Hout.
  split; [done|]. intros Hstable.
  by destruct (timeline_stable cwd sources fs0 Hstable sources fs0
                 (Sync.fs st')) as [_ ->].
Qed.

Lemma sync_prints_one_line_per_count_witness :
  let sources := [("/mnt/development/SESSION_LOG.md", "guide/log.md");
                  ("/mnt/development/README.md", "guide/index.md");
                  ("/mnt/development/MISSING.md", "guide/missing.md")] in
  let fs0 : Disk.disk :=
    {[ "/mnt" := Disk.Directory;
       "/mnt/development" := Disk.Directory;
       "/mnt/development/SESSION_LOG.md" := Disk.File "log";
       "/mnt/development/README.md" := Disk.File "# Readme";
       "/srv" := Disk.Directory;
       "/srv/docs" := Disk.Directory;
       "/srv/docs/guide" := Disk.Directory ]} in
  ∃ st, Sync.syncDocs sources "/srv/docs" fs0 = Ok st
        ∧ Sync.stdout st
          = ["❌ Blocked: /mnt/development/SESSION_LOG.md";
             "✅ Synced: /mnt/development/README.md → guide/index.md";
             Sync.summary st].
Proof.
  intros sources fs0.
  destruct (returns (Sync.syncDocs sources "/srv/docs" fs0)) as [st Hrun];
    [vm_compute; reflexivity|].
  exists st. split; [exact Hrun|].
  rewrite (proj1 (sync_prints_one_line_per_count sources "/srv/docs" fs0 st
                    Hrun)).
  vm_compute. reflexivity.
Defined.

(** X17.  The shipped mapping never meets the blocklist: none of its
    seven sources matches a blocked pattern.  So on every file system
    and in every working directory, a run on it that ends normally
    counts no entry as blocked, prints no [Blocked] line, and counts as
    synced the sources, at most seven, that exist when their turn
    comes. *)
Theorem sync_approved_sources
    {FS : Type} `{!Sync.FileSystem FS} (cwd : string) (fs0 : FS) :
  Forall (λ e, Sync.isJunkDoc e.1 = false) Sync.APPROVED_SOURCES
  ∧ ∀ st, Sync.syncDocs Sync.APPROVED_SOURCES cwd fs0 = Ok st →
      Sync.blocked st = 0
      ∧ Sync.synced st
        = length (filter (λ x, Sync.existsSync x.2 x.1.1)
                         (SyncContract.timeline cwd Sync.APPROVED_SOURCES
                                                fs0))
      ∧ Sync.synced st ≤ 7
      ∧ Sync.stdout st
        = concat (map (λ x, if Sync.existsSync x.2 x.1.1
                            then ["✅ Synced: " +:+ x.1.1 +:+ " → "
                                                +:+ x.1.2]
                            else [])
                      (SyncContract.timeline cwd Sync.APPROVED_SOURCES fs0))
          ++ [Sync.summary st].
Proof.
  assert (Forall (λ e, Sync.isJunkDoc e.1 = false) Sync.APPROVED_SOURCES)
    as Hclean by (repeat constructor).
  split; [exact Hclean|]. intros st. unfold Sync.syncDocs.
  pose proof (loop_spec cwd Sync.APPROVED_SOURCES (Sync.MkState fs0 [] 0 0))
    as Hloop.
  destruct (Sync.loop cwd Sync.APPROVED_SOURCES _) as [st'|e]; [|done].
  intros [= <-]. destruct Hloop as (_ & Hsy & Hbl & Hout).
  cbn [Sync.stdout Sync.synced Sync.blocked Sync.fs app plus] in *.
  assert (∀ l (fs : FS),
            Forall (λ e, Sync.isJunkDoc e.1 = false) l →
            filter (λ x, SyncContract.copied x.2 x.1)
                   (SyncContract.timeline cwd l fs)
            = filter (λ x, Sync.existsSync x.2 x.1.1)
                     (SyncContract.timeline cwd l fs)
            ∧ map (λ x, SyncContract.line x.2 x.1)
                  (SyncContract.timeline cwd l fs)
              = map (λ x, if Sync.existsSync x.2 x.1.1
                          then ["✅ Synced: " +:+ x.1.1 +:+ " → " +:+ x.1.2]
                          else [])
                    (SyncContract.timeline cwd l fs)
            ∧ length (SyncContract.timeline cwd l fs) ≤ length l) as Hshape.
  { induction l as [|e l IH]; intros fs Hl; [done|].
    apply Forall_cons in Hl as [He Hl]. cbn [SyncContract.timeline].
    assert (SyncContract.copied fs e = Sync.existsSync fs e.1) as Hc.
    { unfold SyncContract.copied. by rewrite He. }
    assert (SyncContract.line fs e
            = if Sync.existsSync fs e.1
              then ["✅ Synced: " +:+ e.1 +:+ " → " +:+ e.2] else []) as Hline.
    { unfold SyncContract.line. by rewrite He. }
    destruct (SyncContract.copy cwd fs e) as [fs'|?].
    - destruct (IH fs' Hl) as (IHf & IHm & IHn).
      cbn [map length fst snd]. rewrite Hline, IHm. split_and!; [|done|lia].
      destruct (Sync.existsSync fs e.1) eqn:Hs.
      + rewrite !filter_cons_True
          by (cbn [fst snd]; apply Is_true_true; congruence).
        by rewrite IHf.
      + by rewrite !filter_cons_False
          by (cbn [fst snd]; apply Is_true_false; congruence).
    - cbn [map length fst snd]. rewrite Hline. split_and!; [|done|lia].
      destruct (Sync.existsSync fs e.1) eqn:Hs.
      + by rewrite !filter_cons_True
          by (cbn [fst snd]; apply Is_true_true; congruence).
      + by rewrite !filter_cons_False
          by (cbn [fst snd]; apply Is_true_false; congruence). }
  destruct (Hshape Sync.APPROVED_SOURCES fs0 Hclean) as (Hf & Hm & Hn).
  split_and!.
  - rewrite Hbl. apply length_zero_iff_nil. clear. by vm_compute.
  - by rewrite Hsy, Hf.
  - rewrite Hsy. etrans; [apply length_filter|]. exact Hn.
  - by rewrite Hout, Hm.
Qed.

(** ** Paths *)
Section paths.
#[local] Arguments String.append : simpl nomatch.

Lemma last_split_slash item : ∀ s cur,
  Js.includes item "/" = false →
  last (Js.split_from "/" 0 cur (s +:+ "/" +:+ item)) = Some item.
Proof.
  intros s cur Hitem. revert cur. induction s as [|c s IH]; intros cur.
  - change ("" +:+ "/" +:+ item) with ("/" +:+ item).
    rewrite split_from_sep by done. by rewrite split_from_none.
  - rewrite sapp_cons. cbn [Js.split_from].
    destruct (String.prefix "/" (String c (s +:+ "/" +:+ item))).
    + cbn [String.length Nat.sub]. rewrite last_cons, IH. done.
    + apply IH.
Qed.

End paths.

(** X5.  The file name that [validateFile] takes from a path, by
    [split('/').pop()], is the name of the directory entry that
    [findMarkdownFiles] joined to the directory, for every name without a
    slash. *)
Theorem basename_of_join (dir item : string) :
  Js.includes item "/" = false → basename (Js.join dir item) = item.
Proof.
  intros Hitem. unfold basename, Js.pop, Js.split, Js.join.
  destruct (String.eqb dir ".").
  - by rewrite split_from_none.
  - destruct (Js.endsWith dir "/") eqn:Hends.
    + apply endsWith_iff in Hends as [a ->].
      by rewrite sapp_assoc, last_split_slash.
    + by rewrite last_split_slash.
Qed.

Lemma basename_of_join_witness :
  basename (Js.join "guide/api" "SESSION_NOTES.md") = "SESSION_NOTES.md".
Proof. apply basename_of_join. reflexivity. Defined.

(** ** The block of the stricter Validator *)
Section block.
#[local] Arguments String.append : simpl nomatch.

Lemma star_closing_exact : ∀ mid tail prev acc,
  clear_of (nl +:+ "---") (String.length mid)
           (mid +:+ (nl +:+ "---") +:+ tail) = true →
  star AnyChar false closing prev (Some acc)
       (mid +:+ (nl +:+ "---") +:+ tail)
  = Some (Some (acc +:+ mid)).
Proof.
  induction mid as [|a mid IH]; intros tail prev acc Hclear;
    rewrite star_lazy, closing_spec.
  - cbn [String.append]. by rewrite prefix_app, sapp_nil_r.
  - rewrite sapp_cons in *. cbn [String.length clear_of] in Hclear.
    apply andb_true_iff in Hclear as [Hp Hclear].
    apply negb_true_iff in Hp. rewrite Hp.
    cbn [in_set push fmap option_fmap option_map].
    rewrite IH by done. by rewrite sapp_assoc.
Qed.

Lemma star_closing_first : ∀ s prev acc r,
  star AnyChar false closing prev (Some acc) s = Some r →
  ∃ mid tail,
    r = Some (acc +:+ mid)
    ∧ s = mid +:+ (nl +:+ "---") +:+ tail
    ∧ clear_of (nl +:+ "---") (String.length mid) s = true.
Proof.
  induction s as [|a s IH]; intros prev acc r; rewrite star_lazy, closing_spec.
  - destruct (String.prefix _ _) eqn:Hk; [|done]. by vm_compute in Hk.
  - destruct (String.prefix _ _) eqn:Hk.
    + intros [= <-]. apply prefix_iff in Hk as [tail ->].
      exists "", tail. by rewrite sapp_nil_r.
    + cbn [in_set push fmap option_fmap option_map]. intros Hs.
      apply IH in Hs as (mid & tail & -> & -> & Hclear).
      exists (String a mid), tail. rewrite sapp_assoc. split_and!; [done..|].
      cbn [String.length clear_of]. by rewrite Hk, Hclear.
Qed.

Lemma extractFrontmatter_first content block :
  Strict.extractFrontmatter content = Some block →
  ∃ tail,
    content = ("---" +:+ nl) +:+ block +:+ (nl +:+ "---") +:+ tail
    ∧ clear_of (nl +:+ "---") (String.length block)
               (block +:+ (nl +:+ "---") +:+ tail) = true.
Proof.
  unfold Strict.extractFrontmatter, exec.
  destruct (String.prefix ("---" +:+ nl) content) eqn:Hp.
  - apply prefix_iff in Hp as [rest ->].
    rewrite search_unfold, run_FRONTMATTER_open.
    destruct (star _ _ _ _ _ _) as [r|] eqn:Hs.
    + apply star_closing_first in Hs as (mid & tail & -> & -> & Hclear).
      intros [= <-]. by exists tail.
    + cbn [String.append]. by rewrite search_FRONTMATTER_later.
  - rewrite search_unfold, run_FRONTMATTER_closed by done.
    destruct content as [|a content]; [done|].
    by rewrite search_FRONTMATTER_later.
Qed.

Lemma extractFrontmatter_block block tail :
  clear_of (nl +:+ "---") (String.length block)
           (block +:+ (nl +:+ "---") +:+ tail) = true →
  Strict.extractFrontmatter
    (("---" +:+ nl) +:+ block +:+ (nl +:+ "---") +:+ tail)
  = Some block.
Proof.
  intros Hclear. unfold Strict.extractFrontmatter, exec.
  rewrite search_unfold, run_FRONTMATTER_open.
  by rewrite star_closing_exact.
Qed.

Lemma line_prefix_nonempty key block : line_prefix key block → block ≠ "".
Proof. intros (pre & post & -> & _). by destruct pre, key. Qed.

End block.

(** X6.  What [extractFrontmatter] returns: a block exactly for a content
    that opens with three hyphens and a line feed, and the block is the
    text from there to the first line feed that three hyphens follow; in
    every other case [null]. *)
Theorem extractFrontmatter_exact (content block : string) :
  Strict.extractFrontmatter content = Some block
  ↔ ∃ tail,
      content = ("---" +:+ nl) +:+ block +:+ (nl +:+ "---") +:+ tail
      ∧ clear_of (nl +:+ "---") (String.length block)
                 (block +:+ (nl +:+ "---") +:+ tail) = true.
Proof.
  split.
  - apply extractFrontmatter_first.
  - intros (tail & -> & Hclear). by apply extractFrontmatter_block.
Qed.

Lemma extractFrontmatter_exact_witness :
  Strict.extractFrontmatter
    ("---" +:+ nl +:+ "title: A --- B" +:+ nl +:+ "---" +:+ nl +:+ "text"
           +:+ nl +:+ "---")
  = Some "title: A --- B".
Proof.
  apply extractFrontmatter_exact.
  exists (nl +:+ "text" +:+ nl +:+ "---"). split; reflexivity.
Defined.

(** ** The files that pass *)

(** X7.  The stricter Validator reports nothing for a file exactly when
    its name holds none of the eight blocked words, its content opens with
    a block, and [title:] and [description:] each stand at the start of a
    line of the block. *)
Theorem strict_accepts_exactly (full rel content : string) :
  Strict.validateFile (Strict.MkFile full rel (Fs.File content)) = Ok []
  ↔ existsb (λ word, Js.includes (fold_case (basename rel)) word)
            JUNK_WORDS = false
    ∧ ∃ block tail,
        content = ("---" +:+ nl) +:+ block +:+ (nl +:+ "---") +:+ tail
        ∧ clear_of (nl +:+ "---") (String.length block)
                   (block +:+ (nl +:+ "---") +:+ tail) = true
        ∧ line_prefix "title" block
        ∧ line_prefix "description" block.
Proof.
  split.
  - intros Hv.
    destruct (Strict.extractFrontmatter content) as [block|] eqn:He;
      [destruct (decide (block = "")) as [->|Hb]|].
    + rewrite strict_validateFile_missing in Hv by by rewrite He.
      injection Hv as Hv. by apply app_eq_nil in Hv as [_ ?].
    + erewrite strict_validateFile_block, strict_check_fields in Hv by done.
      injection Hv as Hv.
      apply app_eq_nil in Hv as [Hj Hv]. apply app_eq_nil in Hv as [Ht Hd].
      split.
      * rewrite <- strict_junk_words. unfold strict_junk in Hj.
        by destruct (existsb _ _).
      * apply extractFrontmatter_first in He as (tail & -> & Hclear).
        exists block, tail. split_and!; [done..| |];
          apply test_fieldPattern.
        -- by destruct (test (Strict.fieldPattern "title") block).
        -- by destruct (test (Strict.fieldPattern "description") block).
    + rewrite strict_validateFile_missing in Hv by by rewrite He.
      injection Hv as Hv. by apply app_eq_nil in Hv as [_ ?].
  - intros (Hclean & block & tail & -> & Hclear & Ht & Hd).
    erewrite strict_validateFile_block;
      [|by apply extractFrontmatter_block|by eapply line_prefix_nonempty].
    rewrite strict_check_fields.
    apply test_fieldPattern in Ht, Hd. rewrite Ht, Hd.
    unfold strict_junk. by rewrite strict_junk_words, Hclean.
Qed.

Lemma strict_accepts_exactly_witness :
  Strict.validateFile
    (Strict.MkFile "guide/intro.md" "guide/intro.md"
       (Fs.File ("---" +:+ nl +:+ "title: Intro" +:+ nl
                       +:+ "description: First steps" +:+ nl +:+ "---"
                       +:+ nl +:+ "# Intro")))
  = Ok [].
Proof.
  apply strict_accepts_exactly. split; [reflexivity|].
  exists ("title: Intro" +:+ nl +:+ "description: First steps"),
    (nl +:+ "# Intro").
  split_and!; [reflexivity..| |].
  - exists "", (" Intro" +:+ nl +:+ "description: First steps").
    split; [reflexivity|by left].
  - exists ("title: Intro" +:+ nl), " First steps".
    split; [reflexivity|]. right. exists "title: Intro", LF.
    split; reflexivity.
Defined.

(** X8.  The loose Validator reports nothing for a file exactly when its
    name is none of the names its patterns match and its content either
    does not start with three hyphens, or holds [title:] somewhere before
    the next three hyphens. *)
Theorem loose_accepts_exactly (path content : string) :
  Loose.validateFile (Loose.MkFile path (Fs.File content)) = Ok []
  ↔ ¬ loose_blocked (basename path)
    ∧ (Js.startsWith content "---" = false
       ∨ ∃ rest before after,
           content = "---" +:+ rest
           ∧ first_piece rest "---" = before +:+ "title:" +:+ after).
Proof.
  rewrite <- loose_junk_blocked. split.
  - intros Hv. destruct (Js.startsWith content "---") eqn:Hs.
    + apply startsWith_iff in Hs as [rest ->].
      rewrite loose_validateFile_open, loose_check_fields in Hv.
      injection Hv as Hv. apply app_eq_nil in Hv as [Hj Ht]. split.
      * unfold loose_junk in Hj. by destruct (existsb _ _).
      * right.
        destruct (Js.includes (first_piece rest "---") "title:") eqn:Hi;
          [|done].
        apply includes_iff in Hi as (before & after & Hi).
        by exists rest, before, after.
    + rewrite loose_validateFile_plain in Hv by done.
      injection Hv as Hj. split; [|by left].
      unfold loose_junk in Hj. by destruct (existsb _ _).
  - intros [Hclean%not_true_is_false Hc].
    destruct Hc as [Hs|(rest & before & after & -> & Hi)].
    + rewrite loose_validateFile_plain by done.
      unfold loose_junk. by rewrite Hclean.
    + rewrite loose_validateFile_open, loose_check_fields.
      unfold loose_junk. rewrite Hclean.
      by rewrite (proj2 (includes_iff _ _)) by eauto.
Qed.

Lemma loose_accepts_exactly_witness :
  Loose.validateFile (Loose.MkFile "guide/notes.md" (Fs.File "# Notes"))
  = Ok [].
Proof.
  apply loose_accepts_exactly. split; [|by left].
  rewrite <- loose_junk_blocked. by vm_compute.
Defined.

(** ** The link loop of the loose Validator *)
Section links.
#[local] Arguments String.append : simpl nomatch.

(** Where a lazy star ends: after code units of its class, at a place
    where what follows the star matches. *)
Lemma star_lazy_sound cs k : ∀ s prev acc r,
  star cs false k prev (Some acc) s = Some r →
  ∃ mid rest prev',
    s = mid +:+ rest
    ∧ all_in cs mid = true
    ∧ k prev' (Some (acc +:+ mid)) rest = Some r.
Proof.
  induction s as [|a s IH]; intros prev acc r; rewrite star_lazy.
  - destruct (k prev (Some acc) "") as [r'|] eqn:Hk; [|done].
    intros [= <-]. exists "", "", prev. by rewrite (sapp_nil_r acc).
  - destruct (k prev (Some acc) (String a s)) as [r'|] eqn:Hk.
    + intros [= <-]. exists "", (String a s), prev.
      by rewrite (sapp_nil_r acc).
    + destruct (in_set cs a) eqn:Ha; [|done].
      cbn [push fmap option_fmap option_map]. intros Hs.
      apply IH in Hs as (mid & rest & prev' & -> & Hmid & Hs).
      exists (String a mid), rest, prev'. rewrite sapp_assoc in Hs.
      split_and!; [done| |done]. cbn [all_in]. by rewrite Ha, Hmid.
Qed.

(** A lazy star finds a way through code units of its class to a place
    where what follows the star matches. *)
Lemma star_lazy_complete cs k rest : ∀ mid prev acc,
  all_in cs mid = true →
  (∀ prev' grp, is_Some (k prev' grp rest)) →
  is_Some (star cs false k prev (Some acc) (mid +:+ rest)).
Proof.
  induction mid as [|a mid IH]; intros prev acc Hmid Hk; rewrite star_lazy.
  - cbn [String.append]. destruct (Hk prev (Some acc)) as [r ->]. eauto.
  - rewrite sapp_cons.
    destruct (k prev (Some acc) _) as [r|]; [eauto|].
    cbn [all_in] in Hmid. apply andb_true_iff in Hmid as [-> Hmid].
    cbn [push fmap option_fmap option_map]. by apply IH.
Qed.

Lemma whole_LINK :
  source (Links.whole Links.LINK)
  = [Open; Lit "["%char; Star NotLineTerminator false; Lit "]"%char;
     Lit "("%char; Star NotLineTerminator false; Lit ")"%char; Close].
Proof. reflexivity. Qed.

Lemma run_Open re ts prev grp cap s :
  run re (Open :: ts) prev grp cap s = run re ts prev (Some "") cap s.
Proof. reflexivity. Qed.

Lemma run_Close re ts prev grp cap s :
  run re (Close :: ts) prev grp cap s = run re ts prev None grp s.
Proof. reflexivity. Qed.

Lemma run_Star re cs greedy ts prev grp cap s :
  run re (Star cs greedy :: ts) prev grp cap s
  = star cs greedy (λ prev grp s, run re ts prev grp cap s) prev grp s.
Proof. reflexivity. Qed.

Lemma run_lit_char re c ts prev acc cap s r :
  ignoreCase re = false →
  run re (Lit c :: ts) prev (Some acc) cap s = Some r →
  ∃ s', s = String c s'
        ∧ run re ts (Some c) (Some (acc +:+ String c "")) cap s' = Some r.
Proof.
  intros Hi. cbn [run]. destruct s as [|a s']; [done|].
  unfold char_eq, canonicalize. rewrite Hi.
  destruct (N.eqb c a) eqn:Heq; [|done].
  apply N.eqb_eq in Heq as <-. eauto.
Qed.

(** A match of the link pattern: a bracketed text and a parenthesised
    part, each on one line. *)
Lemma run_LINK prev s r :
  run (Links.whole Links.LINK) (source (Links.whole Links.LINK))
      prev None None s = Some r →
  ∃ text url rest,
    r = Some ("[" +:+ text +:+ "](" +:+ url +:+ ")")
    ∧ s = ("[" +:+ text +:+ "](" +:+ url +:+ ")") +:+ rest
    ∧ all_in NotLineTerminator text = true
    ∧ all_in NotLineTerminator url = true.
Proof.
  rewrite whole_LINK, run_Open. intros Hr.
  apply run_lit_char in Hr as (s1 & -> & Hr); [|done].
  rewrite run_Star in Hr.
  apply star_lazy_sound in Hr as (text & s2 & p2 & -> & Htext & Hr).
  apply run_lit_char in Hr as (s3 & -> & Hr); [|done].
  apply run_lit_char in Hr as (s4 & -> & Hr); [|done].
  rewrite run_Star in Hr.
  apply star_lazy_sound in Hr as (url & s5 & p5 & -> & Hurl & Hr).
  apply run_lit_char in Hr as (rest & -> & Hr); [|done].
  rewrite run_Close in Hr. injection Hr as <-. exists text, url, rest.
  split_and!; [| |done..].
  - f_equal. rewrite !sapp_assoc. reflexivity.
  - rewrite !sapp_assoc. reflexivity.
Qed.

Lemma matchAll_from_LINK : ∀ s skip prev link,
  link ∈ Links.matchAll_from Links.LINK skip prev s →
  ∃ text url,
    link = "[" +:+ text +:+ "](" +:+ url +:+ ")"
    ∧ all_in NotLineTerminator text = true
    ∧ all_in NotLineTerminator url = true.
Proof.
  induction s as [|a s IH]; intros skip prev link;
    cbn [Links.matchAll_from]; destruct skip as [|skip].
  - destruct (run _ _ _ _ _ _) as [[m|]|] eqn:Hrun;
      [|by intros ?%elem_of_nil..].
    intros ->%list_elem_of_singleton.
    apply run_LINK in Hrun as (text & url & rest & [= ->] & _ & ? & ?).
    eauto.
  - by intros ?%elem_of_nil.
  - destruct (run _ _ _ _ _ _) as [[m|]|] eqn:Hrun; [|apply IH..].
    intros [->|Hin]%elem_of_cons; [|by eapply IH].
    apply run_LINK in Hrun as (text & url & rest & [= ->] & _ & ? & ?).
    eauto.
  - apply IH.
Qed.

Lemma links_of_content content link :
  link ∈ default [] (Links.matchAll Links.LINK content) →
  link ∈ Links.matchAll_from Links.LINK 0 None content.
Proof.
  unfold Links.matchAll.
  destruct (Links.matchAll_from _ _ _ _); [by intros ?%elem_of_nil|done].
Qed.

(** A match of the inner pattern has its group. *)
Lemma run_URL_group prev s r :
  run Links.URL (source Links.URL) prev None None s = Some r →
  ∃ url, r = Some url.
Proof.
  change (source Links.URL)
    with [Lit "("%char; Open; Star NotLineTerminator false; Close;
          Lit ")"%char].
  cbn [run]. destruct s as [|a s1]; [done|].
  destruct (char_eq _ _ _); [|done]. intros Hr.
  apply star_lazy_sound in Hr as (url & s2 & p2 & -> & Hurl & Hr).
  cbv beta in Hr. destruct s2 as [|a2 s2]; [done|].
  destruct (char_eq _ _ _); [|done]. injection Hr as <-. eauto.
Qed.

Lemma run_URL_complete prev url tail :
  all_in NotLineTerminator url = true →
  is_Some (run Links.URL (source Links.URL) prev None None
               ("(" +:+ url +:+ ")" +:+ tail)).
Proof.
  intros Hurl. cbn [run source Links.URL String.append].
  change (char_eq Links.URL "("%char "("%char) with true. cbv iota.
  apply star_lazy_complete; [done|]. intros prev' grp.
  cbn [run String.append]. change (char_eq Links.URL ")"%char ")"%char) with true.
  cbv iota. eauto.
Qed.

(** The inner pattern matches every text with a parenthesised part on
    one line. *)
Lemma exec_URL url tail : ∀ pre prev,
  all_in NotLineTerminator url = true →
  ∃ u, search Links.URL prev (pre +:+ "(" +:+ url +:+ ")" +:+ tail)
       = Some (Some u).
Proof.
  induction pre as [|a pre IH]; intros prev Hurl; rewrite search_unfold.
  - destruct (run_URL_complete prev url tail Hurl) as [r Hr].
    cbn [String.append] in *. rewrite Hr.
    apply run_URL_group in Hr as [u ->]. eauto.
  - destruct (run _ _ _ _ _ _) as [r|] eqn:Hr.
    + apply run_URL_group in Hr as [u ->]. eauto.
    + rewrite sapp_cons. by apply IH.
Qed.

Lemma check_link_ok text url :
  all_in NotLineTerminator url = true →
  Links.check_link ("[" +:+ text +:+ "](" +:+ url +:+ ")") = Ok tt.
Proof.
  intros Hurl. unfold Links.check_link, exec.
  destruct (exec_URL url "" ("[" +:+ text +:+ "]") None Hurl) as [u Hu].
  rewrite !sapp_assoc in Hu. cbn [String.append] in *. rewrite Hu.
  by destruct (_ && _).
Qed.

Lemma check_links_ok links :
  Forall (λ link, ∃ text url,
            link = "[" +:+ text +:+ "](" +:+ url +:+ ")"
            ∧ all_in NotLineTerminator text = true
            ∧ all_in NotLineTerminator url = true) links →
  Links.check_links links = Ok tt.
Proof.
  induction 1 as [|link links (text & url & -> & _ & Hurl) _ IH]; [done|].
  cbn [Links.check_links]. by rewrite check_link_ok.
Qed.

End links.

(** X9.  Every element of [links], the matches of the link pattern in
    the content of a file, is a bracketed text followed by a parenthesised
    part, both without a line break, and the body of the loop runs on it
    without an exception. *)
Theorem links_on_one_line (content link : string) :
  link ∈ default [] (Links.matchAll Links.LINK content) →
  (∃ text url,
     link = "[" +:+ text +:+ "](" +:+ url +:+ ")"
     ∧ all_in NotLineTerminator text = true
     ∧ all_in NotLineTerminator url = true)
  ∧ Links.check_link link = Ok tt.
Proof.
  intros Hin. apply links_of_content, matchAll_from_LINK in Hin.
  split; [done|]. destruct Hin as (text & url & -> & _ & Hurl).
  by apply check_link_ok.
Qed.

Lemma links_on_one_line_witness :
  (∃ text url,
     "[c(d](e)" = "[" +:+ text +:+ "](" +:+ url +:+ ")"
     ∧ all_in NotLineTerminator text = true
     ∧ all_in NotLineTerminator url = true)
  ∧ Links.check_link "[c(d](e)" = Ok tt.
Proof.
  apply (links_on_one_line ("see [a](/b) and [c(d](e)f)" +:+ nl +:+ "[x]")).
  apply (bool_decide_unpack _). by vm_compute.
Defined.

(** X10.  The link loop of [validateFile] changes nothing: with the loop
    the function returns the errors, or throws the exception, that it
    returns or throws without it, for every file and every content. *)
Theorem link_loop_changes_nothing (f : Loose.file) :
  Links.validateFile f = Loose.validateFile f.
Proof.
  destruct f as [path [content|items]]; [|done].
  unfold Links.validateFile, Loose.validateFile.
  cbn [Loose.path Loose.target Fs.readFileSync mbind result_bind].
  rewrite check_links_ok.
  - destruct (Js.startsWith content "---"); [|done].
    by destruct (Js.split content "---" !! 1).
  - apply Forall_forall. intros link Hin.
    by apply links_of_content, matchAll_from_LINK in Hin.
Qed.

(** ** What the loose traversal keeps *)
Section loose_traversal.
#[local] Arguments String.append : simpl nomatch.

Lemma loose_kept_further dir x items f :
  loose_kept dir (Fs.Dir items) f → loose_kept dir (Fs.Dir (x :: items)) f.
Proof.
  inversion 1; subst.
  - apply loose_kept_here; [by apply list_elem_of_further|done..].
  - eapply loose_kept_below; [by apply list_elem_of_further|done..].
Qed.

Lemma loose_find_old dir d files f :
  f ∈ files → f ∈ Loose.findMarkdownFiles dir d files.
Proof.
  intros Hin. destruct (loose_find_extends d dir files) as [added ->].
  apply elem_of_app. by left.
Qed.

Lemma loose_find_sound : ∀ d dir files f,
  f ∈ Loose.findMarkdownFiles dir d files → f ∈ files ∨ loose_kept dir d f.
Proof.
  induction d as [content|items IH] using node_induction; intros dir files f.
  - by left.
  - revert files. induction IH as [|[item child] items Hchild _ IHitems];
      intros files.
    + by left.
    + cbn [snd] in Hchild. rewrite loose_find_cons. intros Hin.
      apply IHitems in Hin as [Hin|Hin];
        [|right; by apply loose_kept_further].
      destruct (Fs.isDirectory child && negb (Js.startsWith item "."))
        eqn:Hdir.
      * apply Hchild in Hin as [Hin|Hin]; [by left|right].
        eapply loose_kept_below; [by left|done..].
      * destruct (Js.endsWith item ".md") eqn:Hmd; [|by left].
        apply elem_of_app in Hin as [Hin|Hin]; [by left|right].
        apply list_elem_of_singleton in Hin as ->.
        apply loose_kept_here; [by left|done..].
Qed.

Lemma loose_find_complete dir d f :
  loose_kept dir d f → ∀ files, f ∈ Loose.findMarkdownFiles dir d files.
Proof.
  induction 1 as [dir items item child Hin Hdir Hmd
                 |dir items item child f Hin Hdir _ IH].
  - induction items as [|[item' child'] items IHitems]; intros files.
    { by apply elem_of_nil in Hin. }
    rewrite loose_find_cons. apply elem_of_cons in Hin as [[= <- <-]|Hin].
    + rewrite Hdir, Hmd. apply loose_find_old, elem_of_app. right. by left.
    + by apply IHitems.
  - induction items as [|[item' child'] items IHitems]; intros files.
    { by apply elem_of_nil in Hin. }
    rewrite loose_find_cons. apply elem_of_cons in Hin as [[= <- <-]|Hin].
    + rewrite Hdir. apply loose_find_old, IH.
    + by apply IHitems.
Qed.

Lemma loose_validateFile_directory path items :
  Loose.validateFile (Loose.MkFile path (Fs.Dir items))
  = Throw "EISDIR: illegal operation on a directory, read".
Proof. reflexivity. Qed.

(** The loop of the loose Validator stops with an exception at the first
    kept path that is a directory, and only there. *)
Lemma loose_validate_loop_throws : ∀ files totalErrors stdout,
  (∃ out e, Loose.validate_loop files totalErrors stdout = Uncaught out e)
  ↔ Exists (λ f, Fs.isDirectory (Loose.target f) = true) files.
Proof.
  induction files as [|[path target] files IH]; intros totalErrors stdout.
  - rewrite Exists_nil. cbn [Loose.validate_loop].
    split; [|done]. intros (out & e & Hrun). by destruct (0 <? totalErrors).
  - rewrite Exists_cons. cbn [Loose.validate_loop Loose.target Loose.path].
    destruct target as [content|items].
    + destruct (loose_validateFile_total path content) as [errors ->].
      cbn [Fs.isDirectory].
      destruct (0 <? length errors); rewrite IH;
        (split; [by right|by intros [?|?]]).
    + rewrite loose_validateFile_directory. cbn [Fs.isDirectory].
      split; [by left|]. intros _. eauto.
Qed.

Lemma loose_validate_loop_exception : ∀ files totalErrors stdout out e,
  Loose.validate_loop files totalErrors stdout = Uncaught out e →
  e = "EISDIR: illegal operation on a directory, read".
Proof.
  induction files as [|[path target] files IH];
    intros totalErrors stdout out e; cbn [Loose.validate_loop Loose.path].
  - by destruct (0 <? totalErrors).
  - destruct target as [content|items].
    + destruct (loose_validateFile_total path content) as [errors ->].
      destruct (0 <? length errors); apply IH.
    + rewrite loose_validateFile_directory. by intros [= _ <-].
Qed.

End loose_traversal.

(** X11.  The files the loose traversal keeps under a directory are
    exactly the entries with a name in [.md] that are regular files, or
    directories with a leading dot in the name, of that directory and of
    the directories reached from it through names without a leading dot;
    what was in [files] before stays. *)
Theorem loose_traversal_exact (dir : string) (d : Fs.node)
    (files : list Loose.file) (f : Loose.file) :
  f ∈ Loose.findMarkdownFiles dir d files ↔ f ∈ files ∨ loose_kept dir d f.
Proof.
  split.
  - apply loose_find_sound.
  - intros [Hin|Hkept].
    + by apply loose_find_old.
    + by apply loose_find_complete.
Qed.

Lemma loose_traversal_exact_witness :
  Loose.MkFile "guide/.cache.md" (Fs.Dir [])
  ∈ Loose.findMarkdownFiles "."
      (Fs.Dir [("guide", Fs.Dir [("intro.txt", Fs.File "");
                                 (".cache.md", Fs.Dir [])])]) [].
Proof.
  apply loose_traversal_exact. right.
  apply (loose_kept_below "." _ "guide"
           (Fs.Dir [("intro.txt", Fs.File ""); (".cache.md", Fs.Dir [])]));
    [by left|reflexivity|].
  apply (loose_kept_here "guide" _ ".cache.md" (Fs.Dir []));
    [by right; left|reflexivity..].
Defined.

(** X12.  Whenever the traversal of the loose Validator keeps a
    directory, the run ends in an uncaught exception; a run that ends
    with an exit status has kept regular files only, and has printed
    their reports and the line of the total number of errors, with the
    status of that number. *)
Theorem loose_validate_kept_directory (root : list (string * Fs.node)) :
  let files := Loose.findMarkdownFiles "." (Fs.Dir root) [] in
  (∀ f, loose_kept "." (Fs.Dir root) f →
        Fs.isDirectory (Loose.target f) = true →
        ∃ out e, Loose.validate root = Uncaught out e)
  ∧ (∀ stdout code,
       Loose.validate root = Exit stdout code →
       (∀ f, loose_kept "." (Fs.Dir root) f →
             Fs.isDirectory (Loose.target f) = false)
       ∧ Exit stdout code
         = verdict
             (concat (map (λ f, report (Loose.header (Loose.path f))
                                       (loose_errors f)) files))
             (sum_list (map (λ f, length (loose_errors f)) files))).
Proof.
  intros files.
  assert ((∃ out e, Loose.validate root = Uncaught out e)
          ↔ ∃ f, loose_kept "." (Fs.Dir root) f
                 ∧ Fs.isDirectory (Loose.target f) = true) as Hthrows.
  { unfold Loose.validate. rewrite loose_validate_loop_throws, Exists_exists.
    split; intros (f & Hin & Hdir); exists f; (split; [|done]).
    - by apply loose_find_sound in Hin as [?%elem_of_nil|?].
    - by apply loose_find_complete. }
  split.
  - intros f Hk Hdir. apply Hthrows. eauto.
  - intros stdout code Hrun.
    assert (∀ f, loose_kept "." (Fs.Dir root) f →
                 Fs.isDirectory (Loose.target f) = false) as Hfiles.
    { intros f Hk. destruct (Fs.isDirectory (Loose.target f)) eqn:Hdir;
        [|done].
      destruct (proj2 Hthrows) as (out & e & Hrun'); [eauto|]. congruence. }
    split; [exact Hfiles|]. rewrite <- Hrun.
    apply loose_validate_verdict, Forall_forall.
    intros f Hin. apply loose_find_sound in Hin as [?%elem_of_nil|Hk]; [done|].
    apply Hfiles in Hk. destruct (Loose.target f); [eauto|done].
Qed.

Lemma loose_validate_kept_directory_witness :
  ∃ out e,
    Loose.validate
      [("guide", Fs.Dir [("intro.md", Fs.File "# Intro");
                         (".cache.md", Fs.Dir [])])]
    = Uncaught out e.
Proof.
  apply (proj1 (loose_validate_kept_directory
                  [("guide", Fs.Dir [("intro.md", Fs.File "# Intro");
                                     (".cache.md", Fs.Dir [])])])
           (Loose.MkFile "guide/.cache.md" (Fs.Dir []))); [|reflexivity].
  apply (loose_kept_below "." _ "guide"
           (Fs.Dir [("intro.md", Fs.File "# Intro"); (".cache.md", Fs.Dir [])]));
    [by left|reflexivity|].
  apply (loose_kept_here "guide" _ ".cache.md" (Fs.Dir []));
    [by right; left|reflexivity..].
Defined.

(** X13.  A run of the stricter Validator prints the success line alone
    and exits with 0 exactly when [validateFile] returns no error for any
    kept file; in every other case it exits with 1. *)
Theorem strict_validate_passes_exactly (root : list (string * Fs.node)) :
  let files := Strict.findMarkdownFiles "." (Fs.Dir root) [] in
  (Strict.validate root = Exit [Strict.ok_summary] 0
   ↔ Forall (λ f, Strict.validateFile f = Ok []) files)
  ∧ (∀ stdout code,
       Strict.validate root = Exit stdout code →
       code = 0 ∧ stdout = [Strict.ok_summary]
       ∨ code = 1 ∧ ¬ Forall (λ f, Strict.validateFile f = Ok []) files).
Proof.
  intros files.
  pose proof (strict_validate_verdict root) as Hrun. cbv zeta in Hrun.
  fold files in Hrun.
  assert (Forall (λ f, ∃ content, Strict.target f = Fs.File content) files)
    as Hfiles.
  { eapply Forall_impl; [apply strict_found_files|].
    intros f (content & Hf & _). eauto. }
  assert (Forall (λ f, Strict.validateFile f = Ok []) files
          ↔ Forall (λ f, strict_errors f = []) files) as Herr.
  { clear Hrun. induction Hfiles as [|[full rel target] l [content Hf] _ IH].
    - by rewrite !Forall_nil.
    - rewrite !Forall_cons, IH. cbn in Hf. subst target.
      unfold strict_errors.
      destruct (strict_validateFile_total full rel content) as [errors ->].
      split; intros [He ?]; (split; [|done]);
        [by injection He|by rewrite He]. }
  assert (Forall (λ f, strict_errors f = []) files →
          concat (map (λ f, report (Strict.header (Strict.relPath f))
                                   (strict_errors f)) files) = []
          ∧ sum_list (map (λ f, length (strict_errors f)) files) = 0)
    as Hnone.
  { clear. induction 1 as [|f l Hf _ [IH1 IH2]]; [done|].
    cbn [map concat sum_list sum_list_with]. by rewrite Hf, IH1, IH2. }
  assert (sum_list (map (λ f, length (strict_errors f)) files) = 0 →
          Forall (λ f, strict_errors f = []) files) as Hzero.
  { clear. induction files as [|f l IH]; [done|].
    intros Hsum.
    change (length (strict_errors f)
            + sum_list (map (λ f, length (strict_errors f)) l) = 0) in Hsum.
    constructor; [apply length_zero_iff_nil; lia|apply IH; lia]. }
  rewrite Hrun. setoid_rewrite Herr. unfold verdict.
  destruct (0 <? sum_list _) eqn:Htotal.
  - apply Nat.ltb_lt in Htotal. split.
    + split; [done|]. intros [_ Hsum]%Hnone. lia.
    + intros stdout code [= <- <-]. right. split; [done|].
      intros [_ Hsum]%Hnone. lia.
  - apply Nat.ltb_ge in Htotal.
    assert (Forall (λ f, strict_errors f = []) files) as Hall
      by (apply Hzero; lia).
    destruct (Hnone Hall) as [-> _]. split.
    + by split.
    + intros stdout code [= <- <-]. by left.
Qed.

Lemma strict_validate_passes_exactly_witness :
  Strict.validate
    [("guide", Fs.Dir [("intro.md",
                        Fs.File ("---" +:+ nl +:+ "title: Intro" +:+ nl
                                       +:+ "description: First steps" +:+ nl
                                       +:+ "---" +:+ nl))]);
     ("README.md", Fs.File "# Readme")]
  = Exit [Strict.ok_summary] 0.
Proof.
  apply (proj2 (proj1 (strict_validate_passes_exactly _))).
  repeat constructor.
Defined.

(** ** The blocked names of the Sync Engine *)
Section blocked.
#[local] Arguments String.append : simpl nomatch.

Lemma fold_unit_idemp c : fold_unit (fold_unit c) = fold_unit c.
Proof.
  unfold fold_unit.
  destruct ((97 <=? c) && (c <=? 122))%N eqn:Hc; [|by rewrite Hc].
  apply andb_true_iff in Hc as [Hlo%N.leb_le Hhi%N.leb_le].
  destruct ((97 <=? c - 32) && (c - 32 <=? 122))%N eqn:Hc'; [|done].
  apply andb_true_iff in Hc' as [Hlo'%N.leb_le _]. lia.
Qed.

Lemma fold_case_idemp s :
  fold_case (fold_case s) = fold_case s.
Proof.
  induction s as [|c s IH]; [done|].
  cbn [fold_case]. by rewrite fold_unit_idemp, IH.
Qed.

Lemma includes_part a b c w :
  Js.includes b w = true → Js.includes (a +:+ b +:+ c) w = true.
Proof.
  rewrite !includes_iff. intros (x & y & ->).
  exists (a +:+ x), (y +:+ c). by rewrite !sapp_assoc.
Qed.

Lemma isJunkDoc_words s :
  Sync.isJunkDoc s
  = existsb (λ word, Js.includes (fold_case s) word)
            ["SUMMARY"; "COMPLETE"; "FIXES"; "SESSION"; "PROMPT"; "STATUS";
             "AUDIT"].
Proof.
  unfold Sync.isJunkDoc, Sync.BLOCKED_PATTERNS. cbn [existsb].
  by rewrite !test_lit_ci.
Qed.

End blocked.

(** X14.  The test of the Sync Engine looks for its words anywhere and
    without regard to the case of the letters [a] to [z]: a text with a
    blocked part is blocked, whatever stands before and after the part,
    and two texts that differ only in the case of these letters get the
    same answer. *)
Theorem isJunkDoc_any_part (a b c : string) :
  (Sync.isJunkDoc b = true → Sync.isJunkDoc (a +:+ b +:+ c) = true)
  ∧ (∀ b', fold_case b' = fold_case b →
           Sync.isJunkDoc b' = Sync.isJunkDoc b).
Proof.
  split.
  - rewrite !isJunkDoc_words, !existsb_exists. intros (word & Hin & Hword).
    exists word. split; [done|].
    rewrite !fold_case_app. by apply includes_part.
  - intros b' Hfold. by rewrite !isJunkDoc_words, Hfold.
Qed.

Lemma isJunkDoc_any_part_witness :
  Sync.isJunkDoc
    ("/mnt/development/" +:+ "session-logs" +:+ "/README.md") = true
  ∧ Sync.isJunkDoc "Session_Notes.md" = Sync.isJunkDoc "SESSION_NOTES.MD".
Proof.
  split.
  - apply (proj1 (isJunkDoc_any_part "/mnt/development/" "session-logs"
                    "/README.md")).
    reflexivity.
  - apply (proj2 (isJunkDoc_any_part "" "SESSION_NOTES.MD" "")).
    reflexivity.
Defined.

(** X16.  Of the four names in [IGNORE_DIRS] only [node_modules] makes a
    difference: the traversal of the stricter Validator passes over a
    directory exactly when its name is [node_modules] or starts with a
    dot. *)
Theorem ignored_directories (item : string) :
  Strict.has Strict.IGNORE_DIRS item || Js.startsWith item "."
  = String.eqb item "node_modules" || Js.startsWith item ".".
Proof.
  unfold Strict.has, Strict.IGNORE_DIRS.
  destruct (String.eqb item "node_modules") eqn:Hnode.
  - apply string_eqb_eq in Hnode as ->. reflexivity.
  - apply string_eqb_neq in Hnode.
    destruct (Js.startsWith item ".") eqn:Hdot; [by rewrite orb_true_r|].
    rewrite orb_false_r. apply bool_decide_eq_false.
    rewrite !elem_of_union, !elem_of_singleton.
    intros [[[->| ->]| ->]| ->]; done.
Qed.

(** ** The paths of the traversals *)
Section path_join.
#[local] Arguments String.append : simpl nomatch.

Lemma split_from_segment : ∀ segment cur tail,
  Js.includes segment "/" = false →
  Js.split_from "/" 0 cur (segment +:+ "/" +:+ tail)
  = (cur +:+ segment) :: Js.split_from "/" 0 "" tail.
Proof.
  induction segment as [|c segment IH]; intros cur tail Hseg.
  - change ("" +:+ "/" +:+ tail) with ("/" +:+ tail).
    rewrite split_from_sep by done. by rewrite sapp_nil_r.
  - rewrite includes_cons in Hseg. apply orb_false_iff in Hseg as [Hp Hseg].
    rewrite sapp_cons, split_from_char.
    + rewrite IH by done. by rewrite sapp_assoc.
    + rewrite prefix_cons in *. apply andb_false_iff in Hp as [Hp|Hp].
      * by rewrite Hp.
      * by rewrite prefix_nil in Hp.
Qed.

Lemma concat_sep_cons segment segments :
  segments ≠ [] →
  Path.concat_sep (segment :: segments)
  = segment +:+ "/" +:+ Path.concat_sep segments.
Proof. by destruct segments. Qed.

Lemma concat_sep_snoc : ∀ segments item,
  segments ≠ [] →
  Path.concat_sep (segments ++ [item])
  = Path.concat_sep segments +:+ "/" +:+ item.
Proof.
  induction segments as [|segment [|segment' rest] IH]; intros item Hne;
    [done..|].
  rewrite <- app_comm_cons, concat_sep_cons by done.
  rewrite IH by done. rewrite (concat_sep_cons segment) by done.
  by rewrite !sapp_assoc.
Qed.

Lemma split_concat_sep : ∀ segments,
  segments ≠ [] →
  Forall (λ segment, Js.includes segment "/" = false) segments →
  Js.split (Path.concat_sep segments) "/" = segments.
Proof.
  unfold Js.split.
  induction segments as [|segment [|segment' rest] IH]; intros Hne Hall;
    [done| |].
  - apply Forall_cons in Hall as [Hseg _]. cbn [Path.concat_sep].
    by rewrite split_from_none.
  - apply Forall_cons in Hall as [Hseg Hall].
    rewrite concat_sep_cons by done.
    rewrite split_from_segment by done. by rewrite IH.
Qed.

Lemma normalizeString_names allowAboveRoot : ∀ segments res,
  Forall entry_name segments →
  Path.normalizeString segments allowAboveRoot res = reverse res ++ segments.
Proof.
  induction segments as [|segment rest IH]; intros res Hall.
  - by rewrite app_nil_r.
  - apply Forall_cons in Hall as [(Hne & Hdot & Hdots & _) Hall].
    cbn [Path.normalizeString].
    rewrite (proj2 (string_eqb_neq segment "")) by done.
    rewrite (proj2 (string_eqb_neq segment ".")) by done.
    rewrite (proj2 (string_eqb_neq segment "..")) by done.
    cbn [orb]. rewrite IH by done.
    by rewrite reverse_cons, <- (assoc_L (++)).
Qed.

Lemma includes_endsWith s p : Js.includes s p = false → Js.endsWith s p = false.
Proof.
  intros Hi. destruct (Js.endsWith s p) eqn:He; [|done].
  apply endsWith_iff in He as [a ->].
  rewrite <- Hi. symmetry. apply includes_iff. exists a, "".
  by rewrite sapp_nil_r.
Qed.

Lemma endsWith_slash_app : ∀ a s,
  s ≠ "" → Js.endsWith s "/" = false → Js.endsWith (a +:+ s) "/" = false.
Proof.
  induction a as [|c a IH]; intros s Hne Hs; [done|].
  rewrite sapp_cons, endsWith_cons. rewrite IH by done.
  rewrite orb_false_r. apply string_eqb_neq. intros [= _ Heq].
  destruct a; [by destruct s|done].
Qed.

Lemma concat_sep_names : ∀ segments,
  segments ≠ [] →
  Forall entry_name segments →
  ∃ c rest,
    Path.concat_sep segments = String c rest
    ∧ c ≠ "/"%char
    ∧ Js.endsWith (Path.concat_sep segments) "/" = false.
Proof.
  induction segments as [|segment [|segment' rest] IH]; intros Hne Hall;
    [done| |].
  - apply Forall_cons in Hall as [(Hn & _ & _ & Hslash) _].
    cbn [Path.concat_sep]. destruct segment as [|c segment]; [done|].
    exists c, segment. split_and!; [done| |by apply includes_endsWith].
    rewrite includes_cons, prefix_cons in Hslash.
    apply orb_false_iff in Hslash as [Hp _].
    rewrite prefix_nil, andb_true_r in Hp.
    apply bool_decide_eq_false in Hp. by intros ->.
  - apply Forall_cons in Hall as [(Hn & _ & _ & Hslash) Hall].
    destruct (IH ltac:(done) Hall) as (c' & rest' & Heq & _ & Hends).
    rewrite concat_sep_cons by done.
    destruct segment as [|c segment]; [done|].
    exists c, (segment +:+ "/" +:+ Path.concat_sep (segment' :: rest)).
    split_and!; [done| |].
    + rewrite includes_cons, prefix_cons in Hslash.
      apply orb_false_iff in Hslash as [Hp _].
      rewrite prefix_nil, andb_true_r in Hp.
      apply bool_decide_eq_false in Hp. by intros ->.
    + rewrite <- (sapp_assoc (String c segment) "/").
      apply endsWith_slash_app; [by rewrite Heq|done].
Qed.

Lemma concat_sep_not_dot segments :
  segments ≠ [] →
  Forall entry_name segments →
  Path.concat_sep segments ≠ ".".
Proof.
  destruct segments as [|segment [|segment' rest]]; intros Hne Hall; [done| |].
  - apply Forall_cons in Hall as [(_ & Hdot & _) _]. done.
  - apply Forall_cons in Hall as [(Hn & _) _].
    rewrite concat_sep_cons by done.
    destruct segment as [|c [|c' segment]]; [done| |]; by intros [=].
Qed.

(** [path.normalize] leaves a path made of entry names as it is. *)
Lemma normalize_names segments :
  segments ≠ [] →
  Forall entry_name segments →
  Path.normalize (Path.concat_sep segments) = Path.concat_sep segments.
Proof.
  intros Hne Hall.
  destruct (concat_sep_names segments Hne Hall) as (c & rest & Heq & Hc & Hends).
  unfold Path.normalize. rewrite Hends.
  rewrite split_concat_sep; [|done|].
  2:{ eapply Forall_impl; [exact Hall|]. by intros ? (_ & _ & _ & ?). }
  assert (Js.startsWith (Path.concat_sep segments) "/" = false) as ->.
  { rewrite Heq. unfold Js.startsWith. rewrite prefix_cons.
    by rewrite bool_decide_eq_false_2 by congruence. }
  rewrite normalizeString_names by done.
  change (reverse [] ++ segments) with segments.
  by rewrite Heq.
Qed.

End path_join.

(** X18.  On the arguments that the traversals of the validators pass
    to it, [path.join] has nothing to normalise: for a directory that is
    ['.'] or made of names of directory entries, and the name of an entry,
    it returns the directory, a slash and the name, and the name alone
    under ['.']. *)
Theorem path_join_of_entries (segments : list string) (item : string) :
  Forall entry_name segments →
  entry_name item →
  Path.join (reached segments) item = Js.join (reached segments) item
  ∧ Js.join (reached segments) item = reached (segments ++ [item]).
Proof.
  intros Hall Hitem.
  assert (Forall entry_name (segments ++ [item])) as Hall'.
  { apply Forall_app. split; [done|]. by constructor. }
  assert (Path.join (reached segments) item = reached (segments ++ [item])
          ∧ Js.join (reached segments) item = reached (segments ++ [item]))
    as [-> ->]; [|done].
  destruct Hitem as (Hn & Hdot & Hdots & Hslash).
  destruct segments as [|segment rest].
  - cbn [reached app Path.concat_sep]. split; [|done].
    unfold Path.join.
    change (String.eqb "." "") with false. cbv iota.
    rewrite (proj2 (string_eqb_neq item "")) by done.
    change ("." +:+ "/" +:+ item) with (String "."%char (String "/"%char item)).
    cbn [String.eqb]. unfold Path.normalize. cbn [String.eqb].
    change (Js.startsWith (String "."%char (String "/"%char item)) "/")
      with false.
    change (String "."%char (String "/"%char item)) with ("./" +:+ item).
    rewrite endsWith_slash_app; [|done|by apply includes_endsWith].
    unfold Js.split.
    change ("./" +:+ item) with ("." +:+ "/" +:+ item).
    rewrite split_from_segment by done. rewrite split_from_none by done.
    change ("" +:+ ".") with ".". change ("" +:+ item) with item.
    change (Path.normalizeString ["."; item] (negb false) [])
      with (Path.normalizeString [item] true []).
    rewrite normalizeString_names by (by repeat constructor).
    change (reverse [] ++ [item]) with [item]. cbn [Path.concat_sep].
    by rewrite (proj2 (string_eqb_neq item "")) by done.
  - assert (rest' : segment :: rest ≠ []) by done.
    destruct (concat_sep_names (segment :: rest) rest' Hall)
      as (c & tail & Heq & Hc & Hends).
    change (reached (segment :: rest)) with (Path.concat_sep (segment :: rest)).
    assert (reached ((segment :: rest) ++ [item])
            = Path.concat_sep (segment :: rest) +:+ "/" +:+ item) as Hjoined.
    { rewrite <- concat_sep_snoc by done. by destruct rest. }
    rewrite Hjoined. split.
    + unfold Path.join. rewrite Heq. cbn [String.eqb].
      rewrite (proj2 (string_eqb_neq item "")) by done.
      rewrite <- Heq, <- Hjoined.
      assert (∃ c' tail', reached ((segment :: rest) ++ [item])
                          = String c' tail') as (c' & tail' & Heq').
      { rewrite Hjoined, Heq. by eexists _, _. }
      rewrite Heq'. cbn [String.eqb]. rewrite <- Heq'.
      assert (reached ((segment :: rest) ++ [item])
              = Path.concat_sep ((segment :: rest) ++ [item])) as ->
        by by destruct rest.
      apply normalize_names; [by destruct rest|done].
    + unfold Js.join. rewrite Hends.
      rewrite (proj2 (string_eqb_neq _ ".")); [done|].
      by apply concat_sep_not_dot.
Qed.

Lemma path_join_of_entries_witness :
  Path.join "guide/api" "intro.md" = Js.join "guide/api" "intro.md"
  ∧ Js.join "guide/api" "intro.md" = "guide/api/intro.md".
Proof.
  apply (path_join_of_entries ["guide"; "api"] "intro.md").
  - repeat constructor; done.
  - repeat split; done.
Defined.

(** ** The last entry of a destination *)
Section last_entry.
Import Sync SyncContract.
Context {FS : Type} `{!FileSystem FS} (cwd : string).
Context (entries0 : list (string * string)).
Context (Hstable : stable (FS := FS) cwd entries0).
Context (Hkept : sources_kept (FS := FS) cwd entries0).
Context (Hwritten : written_stays (FS := FS) cwd entries0).

#[local] Abbreviation same_sources := (SyncContract.same_sources entries0).

Lemma copy_same_sources (fs fs' fs0 : FS) e :
  e ∈ entries0 → copy cwd fs e = Ok fs' →
  same_sources fs fs0 → same_sources fs' fs0.
Proof.
  intros He Hcopy Hsame e' He'. unfold copy in Hcopy.
  destruct (isJunkDoc e.1); [injection Hcopy as <-; by apply Hsame|].
  destruct (existsSync fs e.1); [|injection Hcopy as <-; by apply Hsame].
  destruct (readFileSync fs e.1) as [content|?];
    cbn [mbind result_bind] in Hcopy; [|done].
  rewrite (Hstable fs fs' e e' content) by done.
  rewrite (Hkept fs fs' e e' content) by done. by apply Hsame.
Qed.

Lemma run_same_sources : ∀ entries (fs fs' fs0 : FS),
  entries ⊆ entries0 → run cwd fs entries = Ok fs' →
  same_sources fs fs0 → same_sources fs' fs0.
Proof.
  induction entries as [|e rest IH]; intros fs fs' fs0 Hsub Hrun Hsame.
  { by injection Hrun as <-. }
  cbn [run] in Hrun.
  destruct (copy cwd fs e) as [fs1|?] eqn:Hcopy;
    cbn [mbind result_bind] in Hrun; [|done].
  apply (IH fs1 fs' fs0); [intros x Hx; apply Hsub; by right|done|].
  apply (copy_same_sources fs fs1 fs0 e); [apply Hsub; by left|done..].
Qed.

(** Entries that do not write at [p] leave what can be read there. *)
Lemma run_other_destinations (fs0 : FS) dest : ∀ entries (fs fs' : FS),
  entries ⊆ entries0 →
  (∀ e, e ∈ entries → Path.join cwd e.2 = Path.join cwd dest →
        isJunkDoc e.1 = true ∨ existsSync fs0 e.1 = false) →
  (∃ e, e ∈ entries0 ∧ e.2 = dest) →
  same_sources fs fs0 →
  run cwd fs entries = Ok fs' →
  readFileSync fs' (Path.join cwd dest) = readFileSync fs (Path.join cwd dest).
Proof.
  induction entries as [|e rest IH];
    intros fs fs' Hsub Hlast Hdest Hsame Hrun.
  { by injection Hrun as <-. }
  assert (e ∈ entries0) as He by (apply Hsub; left).
  assert (rest ⊆ entries0) as Hsub' by (intros x Hx; apply Hsub; by right).
  cbn [run] in Hrun.
  destruct (copy cwd fs e) as [fs1|?] eqn:Hcopy;
    cbn [mbind result_bind] in Hrun; [|done].
  assert (same_sources fs1 fs0) as Hsame1
    by by apply (copy_same_sources fs fs1 fs0 e).
  rewrite (IH fs1 fs' Hsub' (λ x Hx, Hlast x (list_elem_of_further _ _ _ Hx))
              Hdest Hsame1 Hrun).
  unfold copy in Hcopy.
  destruct (isJunkDoc e.1) eqn:Hj; [by injection Hcopy as <-|].
  destruct (existsSync fs e.1) eqn:Hs; [|by injection Hcopy as <-].
  destruct (readFileSync fs e.1) as [content|?];
    cbn [mbind result_bind] in Hcopy; [|done].
  destruct Hdest as ((source' & dest') & Hin' & Hd). cbn [snd] in Hd.
  subst dest'.
  destruct (Hwritten fs fs1 e content He Hcopy) as [_ Hother].
  apply (Hother (source', dest) Hin'). cbn [snd]. intros Heq.
  destruct (Hlast e) as [Hj'|Hs']; [by left|done|congruence|].
  destruct (Hsame e He) as [Hex _]. congruence.
Qed.

Lemma run_last_entry (fs0 : FS) : ∀ before (fs fs' : FS) source dest after,
  before ++ (source, dest) :: after ⊆ entries0 →
  same_sources fs fs0 →
  run cwd fs (before ++ (source, dest) :: after) = Ok fs' →
  isJunkDoc source = false → existsSync fs0 source = true →
  (∀ e, e ∈ after → Path.join cwd e.2 = Path.join cwd dest →
        isJunkDoc e.1 = true ∨ existsSync fs0 e.1 = false) →
  readFileSync fs' (Path.join cwd dest) = readFileSync fs0 source.
Proof.
  induction before as [|e before IH];
    intros fs fs' source dest after Hsub Hsame Hrun Hj Hs Hlast.
  - cbn [app] in *.
    assert ((source, dest) ∈ entries0) as Hin by (apply Hsub; left).
    assert (after ⊆ entries0) as Hsub'
      by (intros x Hx; apply Hsub; by right).
    cbn [run] in Hrun.
    destruct (copy cwd fs (source, dest)) as [fs1|?] eqn:Hcopy;
      cbn [mbind result_bind] in Hrun; [|done].
    assert (same_sources fs1 fs0) as Hsame1
      by by apply (copy_same_sources fs fs1 fs0 (source, dest)).
    rewrite (run_other_destinations fs0 dest after fs1 fs' Hsub' Hlast
               (ex_intro _ (source, dest) (conj Hin eq_refl)) Hsame1 Hrun).
    destruct (Hsame (source, dest) Hin) as [Hex Hread]. cbn [fst] in *.
    unfold copy in Hcopy. cbn [fst snd] in Hcopy.
    rewrite Hj, Hex, Hs in Hcopy. rewrite <- Hread.
    destruct (readFileSync fs source) as [content|?];
      cbn [mbind result_bind] in Hcopy; [|done].
    destruct (Hwritten fs fs1 (source, dest) content Hin Hcopy) as [Hw _].
    exact Hw.
  - rewrite <- app_comm_cons in *.
    assert (e ∈ entries0) as He by (apply Hsub; left).
    cbn [run] in Hrun.
    destruct (copy cwd fs e) as [fs1|?] eqn:Hcopy;
      cbn [mbind result_bind] in Hrun; [|done].
    apply (IH fs1 fs' source dest after); [|..|done|done|done|done].
    + intros x Hx. apply Hsub. by right.
    + by apply (copy_same_sources fs fs1 fs0 e).
Qed.

End last_entry.

(** X19.  The last entry of a destination wins.  On a file system where
    what is written can be read, a write at one destination leaves the
    other destinations, and the writes of the mapping leave its sources:
    after a run that ends normally, reading a destination yields what
    reading the source of its last entry that is not blocked and whose
    source exists yielded before the run. *)
Theorem sync_last_entry_wins
    {FS : Type} `{!Sync.FileSystem FS}
    (cwd : string) (fs0 : FS) (st : Sync.state FS)
    (sources before after : list (string * string)) (source dest : string) :
  sources = before ++ (source, dest) :: after →
  SyncContract.stable (FS := FS) cwd sources →
  SyncContract.sources_kept (FS := FS) cwd sources →
  SyncContract.written_stays (FS := FS) cwd sources →
  Sync.syncDocs sources cwd fs0 = Ok st →
  Sync.isJunkDoc source = false →
  Sync.existsSync fs0 source = true →
  (∀ e, e ∈ after → Path.join cwd e.2 = Path.join cwd dest →
        Sync.isJunkDoc e.1 = true ∨ Sync.existsSync fs0 e.1 = false) →
  Sync.readFileSync (Sync.fs st) (Path.join cwd dest)
  = Sync.readFileSync fs0 source.
Proof.
  intros -> Hstable Hkept Hwritten Hsync Hj Hs Hlast.
  set (sources := before ++ (source, dest) :: after) in *.
  unfold Sync.syncDocs in Hsync.
  pose proof (loop_spec cwd sources (Sync.MkState fs0 [] 0 0)) as Hloop.
  destruct (Sync.loop cwd sources _) as [st'|e]; [|done].
  injection Hsync as <-. destruct Hloop as (Hrun & _). cbn [Sync.fs] in *.
  by apply (run_last_entry cwd sources Hstable Hkept Hwritten fs0
              before fs0 (Sync.fs st') source dest after).
Qed.

Lemma sync_last_entry_wins_witness :
  let sources := [("/src/a.md", "guide/index.md");
                  ("/src/b.md", "guide/./index.md");
                  ("/src/c.md", "guide/index.md")] in
  let fs0 : Disk.disk :=
    {[ "/src" := Disk.Directory;
       "/src/a.md" := Disk.File "first";
       "/src/b.md" := Disk.File "second";
       "/srv" := Disk.Directory;
       "/srv/docs" := Disk.Directory;
       "/srv/docs/guide" := Disk.Directory ]} in
  ∃ st, Sync.syncDocs sources "/srv/docs" fs0 = Ok st
        ∧ Disk.readFileSync (Sync.fs st) "/srv/docs/guide/index.md"
          = Ok "second".
Proof.
  intros sources fs0.
  destruct (returns (Sync.syncDocs sources "/srv/docs" fs0)) as [st Hrun];
    [vm_compute; reflexivity|].
  exists st. split; [exact Hrun|].
  assert (Forall (λ e, Forall (λ e', Path.join "/srv/docs" e.2 ≠ e'.1)
                         sources) sources) as Hsep.
  { apply (bool_decide_unpack _). vm_compute. exact I. }
  assert (Path.join "/srv/docs" "guide/./index.md"
          = "/srv/docs/guide/index.md") as Hpath by (vm_compute; reflexivity).
  assert (Disk.readFileSync fs0 "/src/b.md" = Ok "second") as Hread
    by (vm_compute; reflexivity).
  rewrite <- Hpath, <- Hread.
  pose proof (sync_last_entry_wins "/srv/docs" fs0 st sources
                [("/src/a.md", "guide/index.md")]
                [("/src/c.md", "guide/index.md")] "/src/b.md"
                "guide/./index.md") as Hwins.
  apply Hwins.
  - reflexivity.
  - by apply disk_stable.
  - by apply disk_sources_kept.
  - apply disk_written_stays.
  - exact Hrun.
  - reflexivity.
  - reflexivity.
  - intros e He _. apply list_elem_of_singleton in He as ->. right.
    reflexivity.
Defined.
